(** * The ingest file writer: segment rotation and the upload pump

    A shallow embedding of [package ingest] (the [FileWriter] of
    src/servers/servers.go): the open segment, its rotation into the
    closed-segments directory, the timer, the upload pump and shutdown.

    The Go methods mutate one shared [FileWriter] and call into the
    operating system, S3, SQS, the logger and the ULID generator.  Here the
    writer's fields and that environment form one state that every method
    threads through a small state monad; a call that can fail consults a
    fault oracle of the environment, so that every theorem quantifies over
    all patterns of I/O failure. *)

From Stdlib Require Import ZArith String Ascii List Lia.
From stdpp Require Import base option gmap strings list sorting.

Open Scope string_scope.
Open Scope list_scope.
Open Scope Z_scope.

(** ** Paths ([path/filepath]) *)

Module Path.

Definition slash : ascii := "/"%char.

Fixpoint has_slash (p : string) : bool :=
  match p with
  | EmptyString => false
  | String c r => if Ascii.eqb c slash then true else has_slash r
  end.

(** [filepath.Join] of two clean, non-empty elements. *)
Definition Join (dir name : string) : string := dir +:+ "/" +:+ name.

(** [filepath.Split]: the path is cut right after its last separator. *)
Fixpoint Split (p : string) : string * string :=
  match p with
  | EmptyString => (EmptyString, EmptyString)
  | String c r =>
      if has_slash r then (String c (fst (Split r)), snd (Split r))
      else if Ascii.eqb c slash then (String c EmptyString, r)
      else (EmptyString, String c r)
  end.

(** The last element of a path: what [FileInfo.Name] reports for an
    opened file, and the second component of [filepath.Split]. *)
Definition Base (p : string) : string := snd (Split p).

(** The directory of a path, without the trailing separator. *)
Fixpoint Dir (p : string) : string :=
  match p with
  | EmptyString => EmptyString
  | String c r => if has_slash r then String c (Dir r) else EmptyString
  end.

End Path.

Export Path.

(** *** [filepath.Clean] and [filepath.Join] in full

    [Join] above is what [filepath.Join] gives for a clean directory and a
    simple name; [filepath_Join] is the function for all elements: the
    empty ones in front are dropped, the rest is joined with separators and
    cleaned. *)

(** The elements of a path, between its separators. *)
Fixpoint elements_of (p : string) : list string :=
  match p with
  | EmptyString => [EmptyString]
  | String c r =>
      if Ascii.eqb c slash then EmptyString :: elements_of r
      else match elements_of r with
           | x :: l => String c x :: l
           | [] => [String c EmptyString]
           end
  end.

Definition rooted (p : string) : bool :=
  match p with String c _ => Ascii.eqb c slash | EmptyString => false end.

(** One element more, on the elements kept so far (the last one first): an
    empty element and [.] are dropped, [..] takes back the element before
    it; where there is none to take back it is dropped at the root and kept
    elsewhere. *)
Definition clean_step (root : bool) (kept : list string) (e : string) : list string :=
  if String.eqb e "" || String.eqb e "." then kept
  else if String.eqb e ".." then
    match kept with
    | top :: below => if String.eqb top ".." then e :: kept else below
    | [] => if root then [] else [e]
    end
  else e :: kept.

Fixpoint join_elements (l : list string) : string :=
  match l with
  | [] => EmptyString
  | [x] => x
  | x :: r => x +:+ "/" +:+ join_elements r
  end.

Definition Clean (p : string) : string :=
  let kept := rev (fold_left (clean_step (rooted p)) (elements_of p) []) in
  if rooted p then "/" +:+ join_elements kept
  else match kept with [] => "." | _ => join_elements kept end.

Fixpoint filepath_Join (elem : list string) : string :=
  match elem with
  | [] => EmptyString
  | e :: rest =>
      if String.eqb e "" then filepath_Join rest else Clean (join_elements elem)
  end.

(** A directory as [filepath.Clean] leaves it, the root and [.] apart. *)
Definition clean_dir (d : string) : bool :=
  String.eqb (Clean d) d && negb (String.eqb d ".") && negb (String.eqb d "/").

(** The name of a directory entry. *)
Definition simple_name (n : string) : bool :=
  negb (String.eqb n "") && negb (has_slash n)
  && negb (String.eqb n ".") && negb (String.eqb n "..").

Example Clean_cases :
  List.map Clean
    ["abc"; "abc/def"; "a/b/c"; "."; ".."; "../.."; "../../abc"; "/abc"; "/"; "";
     "abc/"; "abc/def/"; "a/b/c/"; "./"; "../"; "../../"; "/abc/";
     "abc//def//ghi"; "//abc"; "///abc"; "//abc//"; "abc//";
     "abc/./def"; "/./abc/def"; "abc/.";
     "abc/def/ghi/../jkl"; "abc/def/../ghi/../jkl"; "abc/def/.."; "abc/def/../..";
     "/abc/def/../.."; "abc/def/../../.."; "/abc/def/../../..";
     "abc/def/../../../ghi/jkl/../../../mno"; "/../abc";
     "abc/./../def"; "abc//./../def"; "abc/../../././../def"]
  = ["abc"; "abc/def"; "a/b/c"; "."; ".."; "../.."; "../../abc"; "/abc"; "/"; ".";
     "abc"; "abc/def"; "a/b/c"; "."; ".."; "../.."; "/abc";
     "abc/def/ghi"; "/abc"; "/abc"; "/abc"; "abc";
     "abc/def"; "/abc/def"; "abc";
     "abc/def/jkl"; "abc/jkl"; "abc"; ".";
     "/"; ".."; "/";
     "../../mno"; "/abc";
     "def"; "def"; "../../def"].
Proof. vm_compute. reflexivity. Qed.

Example filepath_Join_cases :
  List.map filepath_Join
    [["a"; "b"]; ["a"; ""]; [""; "b"]; ["/"; "a"]; ["a/"; "b"]; ["a"; "/b"];
     [""; ""]; []; ["up/"; "01J.ndjson"]; [""; "closed"]; ["data/"; "closed"]]
  = ["a/b"; "a"; "b"; "/a"; "a/b"; "a/b";
     ""; ""; "up/01J.ndjson"; "closed"; "data/closed"].
Proof. vm_compute. reflexivity. Qed.

(** ** The environment *)

(** The calls that can fail. *)
Inductive Syscall : Type :=
| SysStat (path : string)                  (* File.Stat *)
| SysClose (path : string)                 (* File.Close *)
| SysMkdirAll (path : string)              (* os.MkdirAll *)
| SysRename (oldpath newpath : string)     (* os.Rename *)
| SysOpenFile (path : string)              (* os.OpenFile, O_APPEND|O_CREATE|O_WRONLY *)
| SysWriteString (path text : string)      (* File.WriteString *)
| SysReadDir (path : string)               (* os.ReadDir *)
| SysInfo (path : string)                  (* DirEntry.Info *)
| SysOpen (path : string)                  (* os.Open *)
| SysRemove (path : string)                (* os.Remove *)
| SysPutObject (bucket key : string)       (* S3.PutObject *)
| SysSendMessage (queue : string).         (* SQS.SendMessage *)

(** A Go [error]: [None] is [nil]; a non-nil error is identified with the
    call that produced it.  A call that returns a value and an error returns
    [inr] of the value, or [inl] of the error with a nil value. *)
Definition error : Type := option Syscall.

Inductive Level : Type := LvlDebug | LvlInfo | LvlError | LvlFatal.

Inductive Mutex : Type := MuRotating | MuCanWrite.

Inductive Chan : Type := ChTickerDone | ChPusherDone.

Inductive Task : Type := TaskRotateOnTimer | TaskPushFiles.

(** What the program did, oldest first. *)
Inductive Event : Type :=
| EvSys (s : Syscall) (ok : bool)
| EvLog (lvl : Level) (err : error) (msg : string)
| EvTryLock (m : Mutex) (ok : bool)
| EvLock (m : Mutex)
| EvUnlock (m : Mutex)
| EvUlid (id : string)
| EvNewTicker (seconds : Z)
| EvTickerStop
| EvSend (c : Chan)
| EvGo (t : Task)
| EvWgAdd
| EvWgWait
| EvSleep.

(** [s3.PutObjectInput]. *)
Record PutObjectInput : Type := {
  Bucket : string;
  Key : string;
  Body : string;
  ContentDisposition : string
}.

(** [sqs.SendMessageInput]; [json.Marshal] of a [map[string]string] is total
    and injective, and the body is kept as the map it encodes. *)
Record SendMessageInput : Type := {
  MessageBody : gmap string string;
  QueueUrl : string
}.

(** An open-file object, [os.File]. *)
Record File : Type := {
  name : string;
  closed : bool
}.

Record FileInfo : Type := {
  fi_Name : string;
  fi_Size : Z
}.

Record World : Type := {
  files : gmap string string;      (* regular files: path to contents *)
  dirs : gset string;              (* directories that exist *)
  s3 : list PutObjectInput;        (* objects put, oldest first *)
  sqs : list SendMessageInput;     (* messages sent, oldest first *)
  trace : list Event;
  clock : nat;                     (* number of fallible calls made so far *)
  faults : nat -> Syscall -> bool; (* the environment: which call fails when *)
  ulids : nat -> string;           (* the ids ulid.Make hands out, in order *)
  made : nat                       (* how many it has handed out *)
}.

(** ** The writer *)

Record Config : Type := {
  MaxAgeSeconds : Z;   (* Ingest.MaxAgeSeconds *)
  MaxSizeBytes : Z;    (* Ingest.MaxSizeBytes, int64 *)
  S3Bucket : string;   (* Storage.S3Bucket *)
  SQS : string         (* AWS.SQS *)
}.

Record FileWriter : Type := {
  DataDirectory : string;
  UploadDirectory : string;
  Tags : gmap string string;
  config : Config;
  fd : option File;     (* nil or the current segment *)
  pusherDone : bool;    (* the channel: a task stands to receive from it *)
  rotating : bool;      (* the mutex is held *)
  canWrite : bool;      (* the mutex is held *)
  ticker : bool;        (* the ticker is running *)
  tickerDone : bool;    (* the channel: a task stands to receive from it *)
  wg : nat              (* sync.WaitGroup counter *)
}.

Definition State : Type := FileWriter * World.

(** ** The monad: state, plus the ways a call does not return *)

Inductive Outcome (A : Type) : Type :=
| Ret (a : A)     (* the call returns *)
| Fatal           (* log.Fatal: the process exits *)
| Panic           (* a run-time panic *)
| Blocked.        (* waiting for a mutex that is never released *)

Arguments Ret {A} a.
Arguments Fatal {A}.
Arguments Panic {A}.
Arguments Blocked {A}.

Definition M (A : Type) : Type := State -> Outcome A * State.

Definition ret {A} (a : A) : M A := fun st => (Ret a, st).

Definition bind {A B} (m : M A) (k : A -> M B) : M B :=
  fun st =>
    match m st with
    | (Ret a, st') => k a st'
    | (Fatal, st') => (Fatal, st')
    | (Panic, st') => (Panic, st')
    | (Blocked, st') => (Blocked, st')
    end.

Declare Scope fw_scope.
Delimit Scope fw_scope with fw.
Notation "x <- m ;; k" := (bind m (fun x => k))
  (at level 100, m at next level, right associativity) : fw_scope.
Notation "m ;; k" := (bind m (fun _ => k))
  (at level 100, right associativity) : fw_scope.
Open Scope fw_scope.

Definition get_fw : M FileWriter := fun st => (Ret (fst st), st).
Definition get_world : M World := fun st => (Ret (snd st), st).
Definition modify_fw (g : FileWriter -> FileWriter) : M unit :=
  fun st => (Ret tt, (g (fst st), snd st)).
Definition modify_world (g : World -> World) : M unit :=
  fun st => (Ret tt, (fst st, g (snd st))).
Definition panic {A} : M A := fun st => (Panic, st).
Definition exit {A} : M A := fun st => (Fatal, st).
Definition block {A} : M A := fun st => (Blocked, st).

(** Field updates. *)
Definition set_files (v : gmap string string) (w : World) : World :=
  {| files := v; dirs := dirs w; s3 := s3 w; sqs := sqs w; trace := trace w;
     clock := clock w; faults := faults w; ulids := ulids w; made := made w |}.
Definition set_dirs (v : gset string) (w : World) : World :=
  {| files := files w; dirs := v; s3 := s3 w; sqs := sqs w; trace := trace w;
     clock := clock w; faults := faults w; ulids := ulids w; made := made w |}.
Definition set_s3 (v : list PutObjectInput) (w : World) : World :=
  {| files := files w; dirs := dirs w; s3 := v; sqs := sqs w; trace := trace w;
     clock := clock w; faults := faults w; ulids := ulids w; made := made w |}.
Definition set_sqs (v : list SendMessageInput) (w : World) : World :=
  {| files := files w; dirs := dirs w; s3 := s3 w; sqs := v; trace := trace w;
     clock := clock w; faults := faults w; ulids := ulids w; made := made w |}.
Definition set_trace (v : list Event) (w : World) : World :=
  {| files := files w; dirs := dirs w; s3 := s3 w; sqs := sqs w; trace := v;
     clock := clock w; faults := faults w; ulids := ulids w; made := made w |}.
Definition set_clock (v : nat) (w : World) : World :=
  {| files := files w; dirs := dirs w; s3 := s3 w; sqs := sqs w; trace := trace w;
     clock := v; faults := faults w; ulids := ulids w; made := made w |}.
Definition set_made (v : nat) (w : World) : World :=
  {| files := files w; dirs := dirs w; s3 := s3 w; sqs := sqs w; trace := trace w;
     clock := clock w; faults := faults w; ulids := ulids w; made := v |}.

Definition set_fd (v : option File) (f : FileWriter) : FileWriter :=
  {| DataDirectory := DataDirectory f; UploadDirectory := UploadDirectory f;
     Tags := Tags f; config := config f; fd := v; pusherDone := pusherDone f;
     rotating := rotating f; canWrite := canWrite f; ticker := ticker f;
     tickerDone := tickerDone f; wg := wg f |}.
Definition set_pusherDone (v : bool) (f : FileWriter) : FileWriter :=
  {| DataDirectory := DataDirectory f; UploadDirectory := UploadDirectory f;
     Tags := Tags f; config := config f; fd := fd f; pusherDone := v;
     rotating := rotating f; canWrite := canWrite f; ticker := ticker f;
     tickerDone := tickerDone f; wg := wg f |}.
Definition set_rotating (v : bool) (f : FileWriter) : FileWriter :=
  {| DataDirectory := DataDirectory f; UploadDirectory := UploadDirectory f;
     Tags := Tags f; config := config f; fd := fd f; pusherDone := pusherDone f;
     rotating := v; canWrite := canWrite f; ticker := ticker f;
     tickerDone := tickerDone f; wg := wg f |}.
Definition set_canWrite (v : bool) (f : FileWriter) : FileWriter :=
  {| DataDirectory := DataDirectory f; UploadDirectory := UploadDirectory f;
     Tags := Tags f; config := config f; fd := fd f; pusherDone := pusherDone f;
     rotating := rotating f; canWrite := v; ticker := ticker f;
     tickerDone := tickerDone f; wg := wg f |}.
Definition set_tickerDone (v : bool) (f : FileWriter) : FileWriter :=
  {| DataDirectory := DataDirectory f; UploadDirectory := UploadDirectory f;
     Tags := Tags f; config := config f; fd := fd f; pusherDone := pusherDone f;
     rotating := rotating f; canWrite := canWrite f; ticker := ticker f;
     tickerDone := v; wg := wg f |}.
Definition set_wg (v : nat) (f : FileWriter) : FileWriter :=
  {| DataDirectory := DataDirectory f; UploadDirectory := UploadDirectory f;
     Tags := Tags f; config := config f; fd := fd f; pusherDone := pusherDone f;
     rotating := rotating f; canWrite := canWrite f; ticker := ticker f;
     tickerDone := tickerDone f; wg := v |}.

(** ** Primitive calls *)

Definition emit (e : Event) : M unit :=
  modify_world (fun w => set_trace (trace w ++ [e]) w).

(** A call that can fail.  It fails when it is not [possible] in the current
    world, or when the environment makes it fail; only a successful call has
    its [effect].  Either way the call is recorded and the clock advances. *)
Definition syscall (s : Syscall) (possible : World -> bool)
    (effect : World -> World) : M error :=
  w <- get_world ;;
  if possible w && negb (faults w (clock w) s)
  then modify_world (fun w =>
         set_clock (S (clock w)) (set_trace (trace w ++ [EvSys s true]) (effect w))) ;;
       ret None
  else modify_world (fun w =>
         set_clock (S (clock w)) (set_trace (trace w ++ [EvSys s false]) w)) ;;
       ret (Some s).

Definition exists_file (p : string) (w : World) : bool :=
  match files w !! p with Some _ => true | None => false end.

Definition size_of (p : string) (w : World) : Z :=
  match files w !! p with
  | Some c => Z.of_nat (String.length c)
  | None => 0
  end.

(** [f.fd.Stat()].  On a nil file Go returns [ErrInvalid] without a call. *)
Definition fd_Stat : M (Syscall + FileInfo) :=
  f <- get_fw ;;
  match fd f with
  | None => ret (inl (SysStat EmptyString))
  | Some h =>
      w <- get_world ;;
      err <- syscall (SysStat (name h))
               (fun w => negb (closed h) && exists_file (name h) w) id ;;
      match err with
      | Some e => ret (inl e)
      | None =>
          ret (inr {| fi_Name := Base (name h); fi_Size := size_of (name h) w |})
      end
  end.

(** [f.fd.Name()]: a nil receiver is dereferenced. *)
Definition fd_Name : M string :=
  f <- get_fw ;;
  match fd f with
  | None => panic
  | Some h => ret (name h)
  end.

(** [f.fd.Close()]: the descriptor is released even when close reports an
    error; closing twice is an error. *)
Definition fd_Close : M error :=
  f <- get_fw ;;
  match fd f with
  | None => ret (Some (SysClose EmptyString))
  | Some h =>
      err <- syscall (SysClose (name h)) (fun _ => negb (closed h)) id ;;
      modify_fw (set_fd (Some {| name := name h; closed := true |})) ;;
      ret err
  end.

(** [f.fd.WriteString(text)]: the file is opened with O_APPEND. *)
Definition fd_WriteString (text : string) : M error :=
  f <- get_fw ;;
  match fd f with
  | None => ret (Some (SysWriteString EmptyString text))
  | Some h =>
      syscall (SysWriteString (name h) text)
        (fun w => negb (closed h) && exists_file (name h) w)
        (fun w => set_files (alter (fun c => c +:+ text) (name h) (files w)) w)
  end.

Definition os_MkdirAll (p : string) : M error :=
  syscall (SysMkdirAll p) (fun _ => true)
    (fun w => set_dirs ({[p]} ∪ dirs w) w).

Definition os_Rename (oldpath newpath : string) : M error :=
  syscall (SysRename oldpath newpath)
    (fun w => exists_file oldpath w && bool_decide (Dir newpath ∈ dirs w))
    (fun w =>
       match files w !! oldpath with
       | Some c => set_files (<[newpath := c]> (delete oldpath (files w))) w
       | None => w
       end).

(** [os.OpenFile(path, O_APPEND|O_CREATE|O_WRONLY, 0644)]: an existing file is
    opened as it is, a missing one is created empty; on failure the file
    returned is nil. *)
Definition os_OpenFile (p : string) : M (Syscall + File) :=
  err <- syscall (SysOpenFile p)
           (fun w => bool_decide (Dir p ∈ dirs w))
           (fun w =>
              match files w !! p with
              | Some _ => w
              | None => set_files (<[p := EmptyString]> (files w)) w
              end) ;;
  match err with
  | Some e => ret (inl e)
  | None => ret (inr {| name := p; closed := false |})
  end.

Definition leb_string (a b : string) : Prop := String.leb a b = true.

#[local] Instance leb_string_dec a b : Decision (leb_string a b).
Proof. unfold leb_string. apply _. Defined.

(** The names of the files of a directory, sorted by name as [os.ReadDir]
    returns them. *)
Definition entries_of (dir : string) (w : World) : list string :=
  merge_sort leb_string
    (Base <$> filter (fun p => Dir p = dir) (elements (dom (files w)))).

Definition os_ReadDir (dir : string) : M (Syscall + list string) :=
  w <- get_world ;;
  err <- syscall (SysReadDir dir) (fun w => bool_decide (dir ∈ dirs w)) id ;;
  match err with
  | Some e => ret (inl e)
  | None => ret (inr (entries_of dir w))
  end.

(** [e.Info()] for the entry at [p]. *)
Definition entry_Info (p : string) : M (Syscall + FileInfo) :=
  w <- get_world ;;
  err <- syscall (SysInfo p) (exists_file p) id ;;
  match err with
  | Some e => ret (inl e)
  | None => ret (inr {| fi_Name := Base p; fi_Size := size_of p w |})
  end.

(** [os.Open(path)] for reading; the result stands for the bytes the
    reader yields.  (The deferred close of this reader has no effect here.) *)
Definition os_Open (p : string) : M (Syscall + string) :=
  w <- get_world ;;
  err <- syscall (SysOpen p) (exists_file p) id ;;
  match err with
  | Some e => ret (inl e)
  | None => ret (inr (default EmptyString (files w !! p)))
  end.

Definition os_Remove (p : string) : M error :=
  syscall (SysRemove p) (exists_file p)
    (fun w => set_files (delete p (files w)) w).

Definition S3_PutObject (input : PutObjectInput) : M error :=
  syscall (SysPutObject (Bucket input) (Key input)) (fun _ => true)
    (fun w => set_s3 (s3 w ++ [input]) w).

Definition SQS_SendMessage (input : SendMessageInput) : M error :=
  syscall (SysSendMessage (QueueUrl input)) (fun _ => true)
    (fun w => set_sqs (sqs w ++ [input]) w).

(** [ulid.Make().String()]. *)
Definition ulid_Make : M string :=
  w <- get_world ;;
  let id := ulids w (made w) in
  modify_world (fun w => set_made (S (made w)) (set_trace (trace w ++ [EvUlid id]) w)) ;;
  ret id.

Definition held (m : Mutex) (f : FileWriter) : bool :=
  match m with MuRotating => rotating f | MuCanWrite => canWrite f end.

Definition set_held (m : Mutex) (v : bool) : FileWriter -> FileWriter :=
  match m with MuRotating => set_rotating v | MuCanWrite => set_canWrite v end.

Definition TryLock (m : Mutex) : M bool :=
  f <- get_fw ;;
  if held m f then emit (EvTryLock m false) ;; ret false
  else modify_fw (set_held m true) ;; emit (EvTryLock m true) ;; ret true.

Definition Lock (m : Mutex) : M unit :=
  f <- get_fw ;;
  if held m f then block
  else modify_fw (set_held m true) ;; emit (EvLock m).

(** Unlocking a mutex that is not locked is a fatal run-time error. *)
Definition Unlock (m : Mutex) : M unit :=
  f <- get_fw ;;
  if held m f then modify_fw (set_held m false) ;; emit (EvUnlock m)
  else panic.

Definition log (lvl : Level) (err : error) (msg : string) : M unit :=
  emit (EvLog lvl err msg).

(** [log.Err(err).Send()] *)
Definition log_Err (e : Syscall) : M unit := log LvlError (Some e) EmptyString.

(** [log.Fatal()...Msg(msg)] logs and exits the process. *)
Definition log_Fatal (err : error) (msg : string) : M unit :=
  log LvlFatal err msg ;; exit.

(** ** The JSON text the writer composes ([gjson], [pretty])

    [Write] builds its line with [gjson.Get(text, "@join.@ugly").Raw].  The
    library works on the raw text: it finds the extent of each value by
    tracking strings and bracket depth, never building a tree.  The model
    does the same, for well-formed JSON text:
    - [@join] turns an array of objects into one object holding the
      members of all of them, each key once, at the place of its first
      occurrence and with the value of its last; elements of the array
      that are not objects are skipped; text that is not an array is
      returned as it is;
    - [@ugly] removes the white space outside strings.
    Keys are compared as raw text. *)

Module Gjson.

Definition dq : ascii := ascii_of_nat 34.          (* the double quote *)
Definition backslash : ascii := ascii_of_nat 92.
Definition quote : string := String dq EmptyString.

(** A character at or below the space. *)
Definition is_space (c : ascii) : bool := (nat_of_ascii c <=? 32)%nat.

Definition opens (c : ascii) : bool := Ascii.eqb c "["%char || Ascii.eqb c "{"%char.
Definition closes (c : ascii) : bool := Ascii.eqb c "]"%char || Ascii.eqb c "}"%char.

(** Where a left-to-right scan stands: how many brackets are open, whether
    it is inside a string, and whether the last character was an
    unescaped backslash there. *)
Record scan : Type := { depth : nat; instr : bool; esc : bool }.

Definition top : scan := {| depth := 0; instr := false; esc := false |}.

Definition step (s : scan) (c : ascii) : scan :=
  if instr s then
    if esc s then {| depth := depth s; instr := true; esc := false |}
    else if Ascii.eqb c backslash then {| depth := depth s; instr := true; esc := true |}
    else if Ascii.eqb c dq then {| depth := depth s; instr := false; esc := false |}
    else s
  else if Ascii.eqb c dq then {| depth := depth s; instr := true; esc := false |}
  else if opens c then {| depth := S (depth s); instr := false; esc := false |}
  else if closes c then {| depth := pred (depth s); instr := false; esc := false |}
  else s.

Definition at_top (s : scan) : bool := negb (instr s) && Nat.eqb (depth s) 0.

Definition cons_head (c : ascii) (l : list string) : list string :=
  match l with
  | [] => [String c EmptyString]
  | x :: l' => String c x :: l'
  end.

(** The pieces of the inside of a container, cut at the separators [sep]
    of its own level, up to the bracket that closes it. *)
Fixpoint pieces (sep : ascii) (s : scan) (text : string) : list string :=
  match text with
  | EmptyString => [EmptyString]
  | String c r =>
      if at_top s && Ascii.eqb c sep then EmptyString :: pieces sep s r
      else if at_top s && closes c then [EmptyString]
      else cons_head c (pieces sep (step s c) r)
  end.

Fixpoint trim_left (t : string) : string :=
  match t with
  | EmptyString => EmptyString
  | String c r => if is_space c then trim_left r else t
  end.

Fixpoint trim_right (t : string) : string :=
  match t with
  | EmptyString => EmptyString
  | String c r =>
      match trim_right r with
      | EmptyString => if is_space c then EmptyString else String c EmptyString
      | r' => String c r'
      end
  end.

Definition trim (t : string) : string := trim_right (trim_left t).

Definition nonempty (t : string) : bool :=
  match t with EmptyString => false | _ => true end.

Definition starts_with (c : ascii) (t : string) : bool :=
  match t with String c' _ => Ascii.eqb c' c | EmptyString => false end.

Definition IsArray (json : string) : bool := starts_with "["%char json.
Definition IsObject (json : string) : bool := starts_with "{"%char json.

Definition inside (json : string) : string :=
  match json with String _ r => r | EmptyString => EmptyString end.

(** The raw values of an array. *)
Definition elements (json : string) : list string :=
  filter (fun t => nonempty t = true) (trim <$> pieces ","%char top (inside json)).

(** The first piece is the key, the rest (a value holds no colon of this
    level) is the value. *)
Definition member (piece : string) : option (string * string) :=
  match pieces ":"%char top piece with
  | k :: v :: _ => Some (trim k, trim v)
  | _ => None
  end.

(** The raw keys and values of an object. *)
Definition members (json : string) : list (string * string) :=
  omap member (pieces ","%char top (inside json)).

(** One more member: a key already present keeps its place and takes the
    new value. *)
Fixpoint upsert (k v : string) (kvs : list (string * string))
    : list (string * string) :=
  match kvs with
  | [] => [(k, v)]
  | (k', v') :: r =>
      if String.eqb k' k then (k', v) :: r else (k', v') :: upsert k v r
  end.

Definition dedupe (kvs : list (string * string)) : list (string * string) :=
  fold_left (fun acc kv => upsert (fst kv) (snd kv) acc) kvs [].

Fixpoint sep_by (sep : string) (l : list string) : string :=
  match l with
  | [] => EmptyString
  | [x] => x
  | x :: r => x +:+ sep +:+ sep_by sep r
  end.

Definition object_of (kvs : list (string * string)) : string :=
  "{" +:+ sep_by "," ((fun kv => fst kv +:+ ":" +:+ snd kv) <$> kvs) +:+ "}".

(** The [@join] modifier. *)
Definition modJoin (json : string) : string :=
  if IsArray json then
    object_of
      (dedupe (concat (members <$> filter (fun t => IsObject t = true) (elements json))))
  else json.

(** The [@ugly] modifier ([pretty.Ugly]). *)
Fixpoint ugly (s : scan) (json : string) : string :=
  match json with
  | EmptyString => EmptyString
  | String c r =>
      if negb (instr s) && is_space c then ugly s r
      else String c (ugly (step s c) r)
  end.

Definition modUgly (json : string) : string := ugly top json.

(** [gjson.Get(json, "@join.@ugly").Raw] *)
Definition Get_join_ugly (json : string) : string := modUgly (modJoin json).

End Gjson.

Example Get_join_ugly_object :
  let q := Gjson.quote in
  Gjson.Get_join_ugly
    ("[{" +:+ q +:+ "a" +:+ q +:+ ": [1, 2], " +:+ q +:+ "b" +:+ q +:+ ":{" +:+ q
       +:+ "c,d" +:+ q +:+ ":null}},{" +:+ q +:+ "__row_id" +:+ q +:+ ": " +:+ q +:+ "ID" +:+ q
       +:+ ", " +:+ q +:+ "a" +:+ q +:+ ": " +:+ q +:+ "x y" +:+ q +:+ "}]")
  = "{" +:+ q +:+ "a" +:+ q +:+ ":" +:+ q +:+ "x y" +:+ q +:+ "," +:+ q +:+ "b" +:+ q
      +:+ ":{" +:+ q +:+ "c,d" +:+ q +:+ ":null}," +:+ q +:+ "__row_id" +:+ q +:+ ":"
      +:+ q +:+ "ID" +:+ q +:+ "}".
Proof. vm_compute. reflexivity. Qed.

(** ** The methods of [FileWriter] *)

(** Two's-complement int64. *)
Definition wrap64 (z : Z) : Z := (z + 2 ^ 63) mod 2 ^ 64 - 2 ^ 63.

(** [if err != nil { log.Err(err).Send(); return err }] around a call, with
    the rest of the function as continuation. *)
Definition check (call : M error) (rest : M error) : M error :=
  err <- call ;;
  match err with
  | Some e => log_Err e ;; ret (Some e)
  | None => rest
  end.

Definition closedDir (f : FileWriter) : string := Join (DataDirectory f) "closed".
Definition openDir (f : FileWriter) : string := Join (DataDirectory f) "open".

(** Rotate, lines 252-280: the open segment is stat'ed, closed and renamed
    into the closed directory under the name stat reported. *)
Definition closeSegment : M error :=
  f <- get_fw ;;
  match fd f with
  | None => ret None
  | Some _ =>
      st <- fd_Stat ;;
      match st with
      | inl e => log_Err e ;; ret (Some e)
      | inr fileinfo =>
          oldName <- fd_Name ;;
          let filename := fi_Name fileinfo in
          check fd_Close (
            let newDir := closedDir f in
            check (os_MkdirAll newDir) (
              check (os_Rename oldName (Join newDir filename)) (ret None)))
      end
  end.

(** Rotate, lines 282-298: a new segment named by a fresh ULID is opened in
    the open directory.  The result of [os.OpenFile] is assigned to [f.fd]
    before the error is looked at. *)
Definition openSegment : M error :=
  f <- get_fw ;;
  newFileId <- ulid_Make ;;
  let dir := openDir f in
  check (os_MkdirAll dir) (
    let path := Join dir (newFileId +:+ ".ndjson") in
    r <- os_OpenFile path ;;
    match r with
    | inl e => modify_fw (set_fd None) ;; log_Err e ;; ret (Some e)
    | inr file => modify_fw (set_fd (Some file)) ;; ret None
    end).

(** Rotate, lines 249-300: what runs while the rotation lock is held. *)
Definition rotateLocked (createNew : bool) : M error :=
  err <- closeSegment ;;
  match err with
  | Some e => ret (Some e)
  | None => if createNew then openSegment else ret None
  end.

Definition Rotate (createNew : bool) : M error :=
  rotating <- TryLock MuRotating ;;
  if negb rotating then
    log LvlDebug None "Someone else is currently rotating, skipping this rotation" ;;
    ret None
  else
    err <- rotateLocked createNew ;;
    Unlock MuRotating ;;
    ret err.

Definition metaData (row_id batch_file : string) : string :=
  "{" +:+ Gjson.quote +:+ "__row_id" +:+ Gjson.quote +:+ ": "
      +:+ Gjson.quote +:+ row_id +:+ Gjson.quote +:+ ", "
      +:+ Gjson.quote +:+ "__batch_file" +:+ Gjson.quote +:+ ": "
      +:+ Gjson.quote +:+ batch_file +:+ Gjson.quote +:+ "}".

Definition newline : string := String (ascii_of_nat 10) EmptyString.

(** Write, lines 323-334: the line is composed and appended. *)
Definition writeLine (data : string) : M error :=
  fdName <- fd_Name ;;
  let currentFileName := snd (Split fdName) in
  row_id <- ulid_Make ;;
  let combined :=
    Gjson.Get_join_ugly ("[" +:+ data +:+ "," +:+ metaData row_id currentFileName +:+ "]") in
  err <- fd_WriteString (combined +:+ newline) ;;
  match err with
  | Some e => log_Err e ;; ret (Some e)
  | None => ret None
  end.

Definition Write (data : string) : M error :=
  Lock MuCanWrite ;;
  err <- (st <- fd_Stat ;;
          match st with
          | inl e => log_Err e ;; ret (Some e)
          | inr fileinfo =>
              f <- get_fw ;;
              check
                (if wrap64 (fi_Size fileinfo + Z.of_nat (String.length data))
                      >? MaxSizeBytes (config f)
                 then Rotate true else ret None)
                (writeLine data)
          end) ;;
  Unlock MuCanWrite ;;
  ret err.

(** rotateOnTimer, lines 127-135: one tick of the ticker.  A failed stat is
    logged and [Size] is then called on its nil [FileInfo], which panics. *)
Definition timerTick : M unit :=
  Lock MuCanWrite ;;
  st <- fd_Stat ;;
  match st with
  | inl e => log LvlError (Some e) "Unable to auto rotate" ;; panic
  | inr fileinfo =>
      (if fi_Size fileinfo >? 0 then Rotate true ;; ret tt else ret tt) ;;
      Unlock MuCanWrite
  end.

(** [wg.Done()] panics when the counter would go below zero. *)
Definition wg_Done : M unit :=
  f <- get_fw ;;
  match wg f with
  | O => panic
  | S n => modify_fw (set_wg n)
  end.

(** The channel a task receives its signal from. *)
Definition chan_of (t : Task) : Chan :=
  match t with TaskRotateOnTimer => ChTickerDone | TaskPushFiles => ChPusherDone end.

Definition receiving (c : Chan) (f : FileWriter) : bool :=
  match c with ChTickerDone => tickerDone f | ChPusherDone => pusherDone f end.

Definition set_receiving (c : Chan) (v : bool) : FileWriter -> FileWriter :=
  match c with ChTickerDone => set_tickerDone v | ChPusherDone => set_pusherDone v end.

(** [go f.task()]: from now on the task stands to receive from its channel. *)
Definition go (t : Task) : M unit :=
  emit (EvGo t) ;; modify_fw (set_receiving (chan_of t) true).

(** The task that received from [c] returns: its deferred [wg.Done] runs,
    and nobody receives from [c] any more. *)
Definition task_return (c : Chan) : M unit :=
  wg_Done ;; modify_fw (set_receiving c false).



Fixpoint forEach {A} (l : list A) (body : A -> M unit) : M unit :=
  match l with
  | [] => ret tt
  | x :: r => body x ;; forEach r body
  end.

Definition uploadS3File (filename : string) : M error :=
  f <- get_fw ;;
  let path := Join (closedDir f) filename in
  opened <- os_Open path ;;
  match opened with
  | inl e => log LvlDebug (Some e) ("os.Open - filename: " +:+ path) ;; ret (Some e)
  | inr file =>
      let s3Key := Join (UploadDirectory f) filename in
      err <- S3_PutObject {| Bucket := S3Bucket (config f); Key := s3Key;
                             Body := file; ContentDisposition := "attachment" |} ;;
      match err with
      | Some e => ret (Some e)
      | None =>
          let sqsMessage :=
            <["key" := s3Key]> (<["bucket" := S3Bucket (config f)]> (Tags f)) in
          forEach (map_to_list (Tags f)) (fun kv =>
            log LvlDebug None
              ("Adding kv to sqs message " +:+ fst kv +:+ " " +:+ snd kv)) ;;
          log LvlDebug None "Final SQS message" ;;
          log LvlDebug None "SQS JSON Payload" ;;
          SQS_SendMessage {| MessageBody := sqsMessage; QueueUrl := SQS (config f) |}
      end
  end.

(** pushFiles, lines 208-227: one entry of the closed directory.  A failed
    [Info] is logged and [Size] is then called on its nil [FileInfo]. *)
Definition pushEntry (uploadPath e_Name : string) : M unit :=
  let filename := Join uploadPath e_Name in
  info <- entry_Info filename ;;
  match info with
  | inl e =>
      log LvlError (Some e) ("Unable to get info for file " +:+ filename) ;; panic
  | inr fileinfo =>
      uploadError <- (if fi_Size fileinfo >? 0 then uploadS3File e_Name else ret None) ;;
      match uploadError with
      | None =>
          err <- os_Remove filename ;;
          match err with
          | Some e => log LvlError (Some e) ("Unable to remove file " +:+ filename)
          | None => ret tt
          end
      | Some e => log_Fatal (Some e) "Unable to upload"
      end
  end.

(** pushFiles, lines 200-230: one scan of the closed directory. *)
Definition pushScan : M unit :=
  f <- get_fw ;;
  let uploadPath := closedDir f in
  r <- os_ReadDir uploadPath ;;
  match r with
  | inl e => log_Err e
  | inr entries =>
      forEach entries (pushEntry uploadPath) ;;
      emit EvSleep
  end.


(** A send on an unbuffered channel returns when a task receives the value;
    with no task at the channel it never returns.  [task] is what the
    receiving task does from the reception on: the tasks run beside Close,
    and here their steps are put where the value is handed over. *)
Definition send (c : Chan) (task : M unit) : M unit :=
  f <- get_fw ;;
  if receiving c f then emit (EvSend c) ;; task else block.

(** [wg.Wait()] returns when the counter is zero. *)
Definition wg_Wait : M unit :=
  f <- get_fw ;;
  if Nat.eqb (wg f) 0 then emit EvWgWait else block.


(** [time.NewTicker] panics unless the interval is positive. *)
Definition NewTicker (seconds : Z) : M unit :=
  if wrap64 (seconds * 1000000000) >? 0
  then emit (EvNewTicker seconds) else panic.

Definition wg_Add : M unit :=
  modify_fw (fun f => set_wg (S (wg f)) f) ;; emit EvWgAdd.

(** The writer as the composite literal of NewFileWriter leaves it, before
    the ticker is made. *)
Definition newWriter (dataDirectory : string) (cfg : Config)
    (uploadDirectory : string) (tags : gmap string string) : FileWriter :=
  {| DataDirectory := dataDirectory; UploadDirectory := uploadDirectory;
     Tags := tags; config := cfg; fd := None; pusherDone := false;
     rotating := false; canWrite := false; ticker := true; tickerDone := false;
     wg := 0%nat |}.

(** NewFileWriter, lines 80-113, on the fields [newWriter] has set; the
    value returned is the writer. *)
Definition startWriter : M FileWriter :=
  fw <- get_fw ;;
  NewTicker (MaxAgeSeconds (config fw)) ;;
  err <- os_MkdirAll (closedDir fw) ;;
  match err with Some e => log_Err e | None => ret tt end ;;
  err <- os_MkdirAll (openDir fw) ;;
  match err with Some e => log_Err e | None => ret tt end ;;
  Rotate true ;;
  wg_Add ;; go TaskRotateOnTimer ;;
  wg_Add ;; go TaskPushFiles ;;
  get_fw.

Definition NewFileWriter (dataDirectory : string) (cfg : Config)
    (uploadDirectory : string) (tags : gmap string string) (w : World)
    : Outcome FileWriter * State :=
  startWriter (newWriter dataDirectory cfg uploadDirectory tags, w).

(** ** Observing a call *)

(** The events a call adds to the trace. *)
Definition events {A} (m : M A) (st : State) : list Event :=
  drop (length (trace (snd st))) (trace (snd (snd (m st)))).

(** The world without its trace: the filesystem, the services, the clock
    and the ids. *)
Definition erase (w : World) : World := set_trace [] w.

(** ** Two calls of Rotate in parallel

    Rotate is cut at its lock operations: the try-lock (with the return of
    the skipped call), the part that runs under the lock, and the deferred
    unlock.  Two calls run these steps in any interleaving. *)

Inductive Pc : Type :=
| PcTryLock (createNew : bool)
| PcLocked (createNew : bool)
| PcUnlock (err : error)
| PcReturned (err : error) (skipped : bool)
| PcCrashed.

Definition call_step (pc : Pc) (st : State) : Pc * State :=
  match pc with
  | PcTryLock createNew =>
      match TryLock MuRotating st with
      | (Ret true, st') => (PcLocked createNew, st')
      | (Ret false, st') =>
          match log LvlDebug None
                  "Someone else is currently rotating, skipping this rotation" st' with
          | (Ret _, st'') => (PcReturned None true, st'')
          | (_, st'') => (PcCrashed, st'')
          end
      | (_, st') => (PcCrashed, st')
      end
  | PcLocked createNew =>
      match rotateLocked createNew st with
      | (Ret err, st') => (PcUnlock err, st')
      | (_, st') => (PcCrashed, st')
      end
  | PcUnlock err =>
      match Unlock MuRotating st with
      | (Ret _, st') => (PcReturned err false, st')
      | (_, st') => (PcCrashed, st')
      end
  | PcReturned _ _ | PcCrashed => (pc, st)
  end.

(** The two calls and the state they share. *)
Definition Pair : Type := Pc * Pc * State.

(** One step of the first call ([true]) or of the second ([false]). *)
Definition pair_step (first : bool) (c : Pair) : Pair :=
  let '(a, b, st) := c in
  if first then let (a', st') := call_step a st in (a', b, st')
  else let (b', st') := call_step b st in (a, b', st').

Definition run_pair (schedule : list bool) (c : Pair) : Pair :=
  fold_left (fun c first => pair_step first c) schedule c.

Definition holds_lock (pc : Pc) : bool :=
  match pc with PcLocked _ | PcUnlock _ => true | _ => false end.

(** The calls overlap in [schedule]: at some point one of them tries the
    lock while the other holds it. *)
Definition overlap (schedule : list bool) (c : Pair) : Prop :=
  exists (before : list bool) (first : bool) (after : list bool),
    schedule = (before ++ first :: after)%list /\
    let '(a, b, _) := run_pair before c in
    let (me, other) := if first then (a, b) else (b, a) in
    (exists createNew, me = PcTryLock createNew) /\ holds_lock other = true.

(** ** A concrete writer *)

Module Demo.

Fixpoint zs (n : nat) : string :=
  match n with O => EmptyString | S k => String "Z"%char (zs k) end.

(** A stream of distinct ids. *)
Definition ulid (n : nat) : string := "01J" +:+ zs n.

Definition cfg : Config :=
  {| MaxAgeSeconds := 60; MaxSizeBytes := 100; S3Bucket := "bucket"; SQS := "queue" |}.

(** An empty disk on which nothing fails. *)
Definition world : World :=
  {| files := ∅; dirs := ∅; s3 := []; sqs := []; trace := []; clock := 0%nat;
     faults := fun _ _ => false; ulids := ulid; made := 0%nat |}.

Definition tags : gmap string string := {[ "table" := "events" ]}.

(** The state NewFileWriter leaves. *)
Definition started : State := snd (NewFileWriter "data" cfg "upload" tags world).

(** The record and the state after it has been written. *)
Definition record : string :=
  "{" +:+ Gjson.quote +:+ "a" +:+ Gjson.quote +:+ ":1}".

Definition written : State := snd (Write record started).

(** The same, with a rotation under way elsewhere. *)
Definition busy : State := (set_rotating true (fst started), snd started).

End Demo.

Definition is_OpenFile (s : Syscall) : bool :=
  match s with SysOpenFile _ => true | _ => false end.

Module DemoFaults.

(** The demo disk, on which every rename fails. *)
Definition rename_fails : World :=
  {| files := files (snd Demo.started); dirs := dirs (snd Demo.started);
     s3 := []; sqs := []; trace := []; clock := 0%nat;
     faults := fun _ s => match s with SysRename _ _ => true | _ => false end;
     ulids := Demo.ulid; made := 1%nat |}.

(** The empty demo disk, on which no directory can be made. *)
Definition mkdir_fails : World :=
  {| files := ∅; dirs := ∅; s3 := []; sqs := []; trace := []; clock := 0%nat;
     faults := fun _ s => match s with SysMkdirAll _ => true | _ => false end;
     ulids := Demo.ulid; made := 0%nat |}.

End DemoFaults.




(** Every failed call of the trace is followed at once by the log of its
    error. *)
Fixpoint failures_logged (t : list Event) : Prop :=
  match t with
  | [] => True
  | EvSys s false :: rest =>
      match rest with
      | EvLog LvlError (Some s') _ :: _ => s' = s
      | _ => False
      end /\ failures_logged rest
  | _ :: rest => failures_logged rest
  end.

(** ** What the pump uploads *)

(** The object uploadS3File puts for the closed segment [filename] whose
    bytes are [body]. *)
Definition object_for (f : FileWriter) (filename body : string) : PutObjectInput :=
  {| Bucket := S3Bucket (config f); Key := Join (UploadDirectory f) filename;
     Body := body; ContentDisposition := "attachment" |}.

(** The notification it sends for it. *)
Definition message_for (f : FileWriter) (filename : string) : SendMessageInput :=
  {| MessageBody :=
       <["key" := Join (UploadDirectory f) filename]>
         (<["bucket" := S3Bucket (config f)]> (Tags f));
     QueueUrl := SQS (config f) |}.

(** The debug lines uploadS3File logs between the upload and the send. *)
Definition message_logs (f : FileWriter) : list Event :=
  ((fun kv => EvLog LvlDebug None
                ("Adding kv to sqs message " +:+ fst kv +:+ " " +:+ snd kv))
     <$> map_to_list (Tags f))
  ++ [EvLog LvlDebug None "Final SQS message"; EvLog LvlDebug None "SQS JSON Payload"].

(** The world after a successful [Info] on [p]. *)
Definition informed (p : string) (w : World) : World :=
  set_clock (S (clock w)) (set_trace (trace w ++ [EvSys (SysInfo p) true]) w).

Definition set_faults (v : nat -> Syscall -> bool) (w : World) : World :=
  {| files := files w; dirs := dirs w; s3 := s3 w; sqs := sqs w; trace := trace w;
     clock := clock w; faults := v; ulids := ulids w; made := made w |}.

Module DemoPump.

(** After a write and a tick of the timer: one non-empty closed segment,
    data/closed/01J.ndjson. *)
Definition rotated : State := snd (timerTick Demo.written).

(** After a last rotation right after startup: one empty closed segment. *)
Definition closed_empty : State := snd (Rotate false Demo.started).

(** Every removal fails. *)
Definition remove_fails (t : nat) (s : Syscall) : bool :=
  match s with SysRemove _ => true | _ => false end.

End DemoPump.

(** ** Sequences of writes *)

(** A sequence of Write calls on one writer; what they return is dropped. *)
Fixpoint writes (records : list string) (st : State) : State :=
  match records with
  | [] => st
  | data :: rest => writes rest (snd (Write data st))
  end.

(** No call is under way: both locks are free. *)
Definition idle (st : State) : Prop :=
  rotating (fst st) = false /\ canWrite (fst st) = false.

(** The ids of the environment never repeat, and no file of the open
    directory bears an id that is still to be handed out. *)
Definition fresh_ids (st : State) : Prop :=
  (forall n m, ulids (snd st) n = ulids (snd st) m -> n = m) /\
  (forall n, (made (snd st) <= n)%nat ->
     files (snd st) !! Join (openDir (fst st)) (ulids (snd st) n +:+ ".ndjson") = None).

(** The length of a string as Go's [int64(len(s))]. *)
Definition len (s : string) : Z := Z.of_nat (String.length s).

(** ** JSON values and their compact text

    The text of a record is what the caller passes; to say what the line
    holds, a value is given as a tree whose leaves keep their raw text. *)

Module Json.

Unset Elimination Schemes.

Inductive json : Type :=
| JAtom (raw : string)                      (* a number, true, false or null *)
| JString (raw : string)                    (* the text between the quotes *)
| JArray (items : list json)
| JObject (members : list (string * json)). (* keys as the text between the quotes *)

Set Elimination Schemes.

Definition quoted (raw : string) : string := Gjson.quote +:+ raw +:+ Gjson.quote.

(** The compact text of a value. *)
Fixpoint render (v : json) : string :=
  match v with
  | JAtom raw => raw
  | JString raw => quoted raw
  | JArray items => "[" +:+ Gjson.sep_by "," (List.map render items) +:+ "]"
  | JObject members =>
      "{" +:+ Gjson.sep_by ","
                (List.map (fun kv => quoted (fst kv) +:+ ":" +:+ render (snd kv)) members)
          +:+ "}"
  end.

(** A character of a number or literal: not a space, a quote or a
    punctuation mark of JSON. *)
Definition atom_char (c : ascii) : bool :=
  negb (Gjson.is_space c) && negb (Ascii.eqb c Gjson.dq)
  && negb (Ascii.eqb c ","%char) && negb (Ascii.eqb c ":"%char)
  && negb (Gjson.opens c) && negb (Gjson.closes c).

Fixpoint all_chars (p : ascii -> bool) (s : string) : bool :=
  match s with
  | EmptyString => true
  | String c r => p c && all_chars p r
  end.

(** The inside of a string literal: no bare quote, no dangling backslash. *)
Fixpoint string_body (esc : bool) (s : string) : bool :=
  match s with
  | EmptyString => negb esc
  | String c r =>
      if esc then string_body false r
      else if Ascii.eqb c Gjson.backslash then string_body true r
      else if Ascii.eqb c Gjson.dq then false
      else string_body false r
  end.

Fixpoint wf (v : json) : bool :=
  match v with
  | JAtom raw => Gjson.nonempty raw && all_chars atom_char raw
  | JString raw => string_body false raw
  | JArray items => forallb wf items
  | JObject members =>
      forallb (fun kv => string_body false (fst kv) && wf (snd kv)) members
  end.

(** The members of an object after [@join] has added [more]: a key
    already present keeps its place and takes the new value. *)
Fixpoint upsert (k : string) (v : json) (kvs : list (string * json))
    : list (string * json) :=
  match kvs with
  | [] => [(k, v)]
  | (k', v') :: r =>
      if String.eqb k' k then (k', v) :: r else (k', v') :: upsert k v r
  end.





End Json.

Import Json.

(** ** Reading the text of a value *)

(** Induction on a value, with the hypothesis for every item of an array and
    every member of an object. *)
Section JsonInduction.

Variable P : json -> Prop.
Hypothesis Hatom : forall raw, P (JAtom raw).
Hypothesis Hstring : forall raw, P (JString raw).
Hypothesis Harray : forall items, Forall P items -> P (JArray items).
Hypothesis Hobject : forall members, Forall (fun kv => P (snd kv)) members -> P (JObject members).

End JsonInduction.


(** The scan outside a string, [d] brackets deep, and inside one. *)
Definition out (d : nat) : Gjson.scan :=
  {| Gjson.depth := d; Gjson.instr := false; Gjson.esc := false |}.




(** A text that begins and ends with characters that are no spaces. *)
Definition tight (t : string) : Prop := Gjson.trim t = t.








(** ** Two calls of Rotate *)

(** Two states that differ at most in the trace. *)
Definition same (st1 st2 : State) : Prop :=
  fst st1 = fst st2 /\ erase (snd st1) = erase (snd st2).

(** The first [n] steps of a call that runs alone. *)
Fixpoint solo (n : nat) (createNew : bool) (st : State) : Pc * State :=
  match n with
  | O => (PcTryLock createNew, st)
  | S k => let (pc, st') := solo k createNew st in call_step pc st'
  end.

Definition swap (c : Pair) : Pair := let '(a, b, st) := c in (b, a, st).

(** While one call has not started, the other has run alone. *)
Definition alone (cA cB : bool) (s0 : State) (c : Pair) : Prop :=
  let '(a, b, st) := c in
  (forall x, b = PcTryLock x -> exists n, solo n cA s0 = (a, st)) /\
  (forall x, a = PcTryLock x -> exists n, solo n cB s0 = (b, st)).
(** * Properties *)

(** ** Paths *)

Section PathFacts.

Lemma append_nil_l (b : string) : EmptyString +:+ b = b.
Proof. reflexivity. Qed.

Lemma append_cons c (a b : string) : String c a +:+ b = String c (a +:+ b).
Proof. reflexivity. Qed.

Lemma append_assoc (a b c : string) : (a +:+ b) +:+ c = a +:+ (b +:+ c).
Proof.
  induction a as [|x a IH]; [reflexivity|].
  rewrite !append_cons, IH. reflexivity.
Qed.


Lemma length_append (a b : string) :
  String.length (a +:+ b) = (String.length a + String.length b)%nat.
Proof.
  induction a as [|x a IH]; [reflexivity|].
  rewrite append_cons. simpl. rewrite IH. reflexivity.
Qed.

Lemma has_slash_app a b : has_slash (a +:+ b) = has_slash a || has_slash b.
Proof.
  induction a as [|c a IH]; [reflexivity|].
  rewrite append_cons. simpl.
  destruct (Ascii.eqb c slash); [reflexivity | exact IH].
Qed.

Lemma Split_Join d b : has_slash b = false -> Split (Join d b) = (d +:+ "/", b).
Proof.
  intros Hb. unfold Join. induction d as [|c d IH].
  - rewrite !append_nil_l, append_cons, append_nil_l. simpl. rewrite Hb. reflexivity.
  - rewrite !(append_cons c). simpl. rewrite has_slash_app.
    replace (has_slash ("/" +:+ b)) with true by reflexivity.
    rewrite orb_true_r, IH. reflexivity.
Qed.

Lemma Base_Join d b : has_slash b = false -> Base (Join d b) = b.
Proof. intros Hb. unfold Base. rewrite Split_Join by exact Hb. reflexivity. Qed.

Lemma Dir_Join d b : has_slash b = false -> Dir (Join d b) = d.
Proof.
  intros Hb. unfold Join. induction d as [|c d IH].
  - rewrite !append_nil_l, append_cons, append_nil_l. simpl. rewrite Hb. reflexivity.
  - rewrite !(append_cons c). simpl. rewrite has_slash_app.
    replace (has_slash ("/" +:+ b)) with true by reflexivity.
    rewrite orb_true_r, IH. reflexivity.
Qed.

Lemma has_slash_Base p : has_slash (Base p) = false.
Proof.
  unfold Base. induction p as [|c p IH]; simpl; [reflexivity|].
  destruct (has_slash p) eqn:Hp; simpl; [exact IH|].
  destruct (Ascii.eqb c slash) eqn:Hc; simpl; [exact Hp|].
  rewrite Hc. exact Hp.
Qed.

Lemma append_inj_l a b c : a +:+ b = a +:+ c -> b = c.
Proof.
  induction a as [|x a IH]; intros H; [exact H|].
  rewrite !append_cons in H. injection H. exact IH.
Qed.

(** A path of the open directory is never a path of the closed one. *)
Lemma open_closed_disjoint d x y : Join (Join d "open") x <> Join (Join d "closed") y.
Proof.
  unfold Join. rewrite !append_assoc. intros H.
  apply append_inj_l in H. discriminate H.
Qed.

End PathFacts.

(** ** [Join] and [filepath.Join] *)

Lemma elements_of_nonempty p : elements_of p <> [].
Proof.
  induction p as [|c p IH]; simpl; [discriminate|].
  destruct (Ascii.eqb c slash); [discriminate|].
  destruct (elements_of p); [contradiction|discriminate].
Qed.

Lemma elements_of_simple n : has_slash n = false -> elements_of n = [n].
Proof.
  induction n as [|c n IH]; simpl; [reflexivity|].
  destruct (Ascii.eqb c slash); [discriminate|]. intros H. rewrite (IH H). reflexivity.
Qed.

Lemma elements_of_app d n :
  has_slash n = false -> elements_of (d +:+ "/" +:+ n) = elements_of d ++ [n].
Proof.
  intros Hn. induction d as [|c d IH].
  - rewrite append_nil_l. change ("/" +:+ n) with (String slash n). simpl.
    rewrite (elements_of_simple n Hn). reflexivity.
  - rewrite append_cons. simpl. rewrite IH.
    destruct (Ascii.eqb c slash); [reflexivity|].
    pose proof (elements_of_nonempty d).
    destruct (elements_of d); [contradiction|reflexivity].
Qed.

Lemma join_elements_snoc l n :
  l <> [] -> join_elements (l ++ [n]) = join_elements l +:+ "/" +:+ n.
Proof.
  induction l as [|x l IH]; [contradiction|]. intros _.
  destruct l as [|y l]; [reflexivity|].
  change (join_elements ((x :: y :: l) ++ [n]))
    with (x +:+ "/" +:+ join_elements ((y :: l) ++ [n])).
  rewrite IH by discriminate.
  change (join_elements (x :: y :: l)) with (x +:+ "/" +:+ join_elements (y :: l)).
  rewrite !append_assoc. reflexivity.
Qed.

Lemma rooted_app d t : d <> EmptyString -> rooted (d +:+ t) = rooted d.
Proof. destruct d; [contradiction|reflexivity]. Qed.

Lemma clean_step_simple root kept n :
  simple_name n = true -> clean_step root kept n = n :: kept.
Proof.
  unfold simple_name, clean_step. rewrite !andb_true_iff, !negb_true_iff.
  intros [[[H1 _] H2] H3]. rewrite H1, H2, H3. reflexivity.
Qed.

(** On a clean directory and a simple name [filepath.Join] is [Join]. *)
Lemma filepath_Join_clean d n :
  clean_dir d = true -> simple_name n = true ->
  filepath_Join [d; n] = Join d n.
Proof.
  intros Hd Hn. unfold clean_dir in Hd. rewrite !andb_true_iff, !negb_true_iff in Hd.
  destruct Hd as [[Hc Hdot] Hroot]. apply String.eqb_eq in Hc.
  apply String.eqb_neq in Hdot, Hroot.
  assert (Hne : d <> EmptyString).
  { intros ->. vm_compute in Hc. discriminate Hc. }
  assert (Hs : has_slash n = false).
  { unfold simple_name in Hn. rewrite !andb_true_iff, !negb_true_iff in Hn. tauto. }
  unfold filepath_Join. destruct (String.eqb d "") eqn:E;
    [apply String.eqb_eq in E; contradiction|].
  change (join_elements [d; n]) with (d +:+ "/" +:+ n). unfold Join.
  unfold Clean in *. rewrite (rooted_app d _ Hne), (elements_of_app d n Hs), fold_left_app.
  simpl fold_left. rewrite (clean_step_simple _ _ n Hn). simpl rev.
  set (kept := rev (fold_left (clean_step (rooted d)) (elements_of d) [])) in *.
  destruct (rooted d).
  - destruct kept as [|x kept].
    + change ("/" +:+ join_elements []) with "/" in Hc. congruence.
    + rewrite join_elements_snoc by discriminate.
      rewrite <- Hc at 1. rewrite ?append_assoc. reflexivity.
  - destruct kept as [|x kept]; [congruence|].
    rewrite join_elements_snoc by discriminate. rewrite Hc.
    destruct ((x :: kept) ++ [n]) eqn:E2; [destruct kept; discriminate E2|reflexivity].
Qed.

Lemma has_slash_false_app a b :
  has_slash a = false -> has_slash b = false -> has_slash (a +:+ b) = false.
Proof. intros Ha Hb. rewrite has_slash_app, Ha, Hb. reflexivity. Qed.

(** The join of a clean directory and a simple name is a clean directory. *)
Lemma clean_dir_Join d n :
  clean_dir d = true -> simple_name n = true -> clean_dir (Join d n) = true.
Proof.
  intros Hd Hn. pose proof (filepath_Join_clean d n Hd Hn) as H.
  unfold clean_dir in *. rewrite !andb_true_iff, !negb_true_iff in *.
  destruct Hd as [[Hc Hdot] Hroot]. apply String.eqb_eq in Hc.
  assert (Hne : d <> EmptyString).
  { intros ->. vm_compute in Hc. discriminate Hc. }
  unfold filepath_Join in H. destruct (String.eqb d "") eqn:E;
    [apply String.eqb_eq in E; contradiction|].
  change (join_elements [d; n]) with (Join d n) in H.
  split; [split|].
  - apply String.eqb_eq. exact H.
  - apply String.eqb_neq. unfold Join. destruct d as [|c d]; [contradiction|].
    rewrite append_cons. destruct d; [|].
    + rewrite append_nil_l. discriminate.
    + rewrite append_cons. discriminate.
  - apply String.eqb_neq. unfold Join. destruct d as [|c d]; [contradiction|].
    rewrite append_cons. destruct d.
    + rewrite append_nil_l. discriminate.
    + rewrite append_cons. discriminate.
Qed.

Lemma closedDir_faithful f :
  clean_dir (DataDirectory f) = true ->
  closedDir f = filepath_Join [DataDirectory f; "closed"] /\
  clean_dir (closedDir f) = true.
Proof.
  intros H. unfold closedDir. split.
  - symmetry. apply filepath_Join_clean; [exact H|reflexivity].
  - apply clean_dir_Join; [exact H|reflexivity].
Qed.

Lemma openDir_faithful f :
  clean_dir (DataDirectory f) = true ->
  openDir f = filepath_Join [DataDirectory f; "open"] /\
  clean_dir (openDir f) = true.
Proof.
  intros H. unfold openDir. split.
  - symmetry. apply filepath_Join_clean; [exact H|reflexivity].
  - apply clean_dir_Join; [exact H|reflexivity].
Qed.

(** ** Symbolic execution *)

Ltac unfold_m :=
  unfold Write, writeLine, timerTick, startWriter, NewTicker, wg_Add, wg_Done,
    go, task_return, send, wg_Wait, pushScan, pushEntry, uploadS3File,
    Rotate, rotateLocked, closeSegment, openSegment, check, fd_Stat, fd_Name,
    fd_Close, fd_WriteString, os_MkdirAll, os_Rename, os_OpenFile, os_ReadDir,
    entry_Info, os_Open, os_Remove, S3_PutObject, SQS_SendMessage, ulid_Make,
    TryLock, Lock, Unlock, log_Fatal, log_Err, log, emit, syscall, bind, ret,
    get_fw, get_world, modify_fw, modify_world, panic, exit, block,
    exists_file, size_of, closedDir, openDir, held, set_held, receiving,
    set_receiving, chan_of in *.

(** Case analysis on whatever the computation branches on next. *)
Ltac break :=
  repeat (simpl in *;
    match goal with
    | H : ?x = _ |- context [match ?x with _ => _ end] => rewrite H
    | |- context [match ?x with _ => _ end] =>
        lazymatch x with
        | context [match _ with _ => _ end] => fail
        | _ => destruct x eqn:?
        end
    end); simpl in *.

Lemma events_intro {A} (m : M A) st t :
  trace (snd (snd (m st))) = (trace (snd st) ++ t)%list -> events m st = t.
Proof. unfold events. intros ->. apply drop_app_length. Qed.

(** The events of a call whose run has been computed. *)
Ltac norm_events :=
  unfold events; simpl; repeat (rewrite <- app_assoc; simpl); rewrite ?drop_app_length.

(** Which element of an explicit list a membership speaks of. *)
Ltac in_cases H :=
  simpl in H;
  repeat match type of H with
         | _ \/ _ => destruct H as [H|H]; [try discriminate H|]
         | False => contradiction
         end.

(** ** Rotate and the rotation lock *)

Lemma Rotate_skipped createNew f w :
  rotating f = true ->
  Rotate createNew (f, w) =
    (Ret None,
     (f, set_trace
           (trace w ++
            [EvTryLock MuRotating false;
             EvLog LvlDebug None
               "Someone else is currently rotating, skipping this rotation"]) w)).
Proof.
  intros H. unfold_m. simpl. rewrite H. simpl. rewrite <- app_assoc. reflexivity.
Qed.

(** Under the lock nothing blocks, exits or panics, and the locks and the
    configuration of the writer stay as they are. *)
Lemma rotateLocked_returns createNew f w :
  exists err f' w',
    rotateLocked createNew (f, w) = (Ret err, (f', w')) /\
    rotating f' = rotating f /\ canWrite f' = canWrite f /\
    DataDirectory f' = DataDirectory f /\ config f' = config f.
Proof.
  unfold_m. break; do 3 eexists; (split; [reflexivity|]); simpl; auto.
Qed.


Lemma same_refl st : same st st.
Proof. split; reflexivity. Qed.

Lemma same_trans st1 st2 st3 : same st1 st2 -> same st2 st3 -> same st1 st3.
Proof. intros [H1 H2] [H3 H4]. split; congruence. Qed.

Lemma same_sym st1 st2 : same st1 st2 -> same st2 st1.
Proof. intros [H1 H2]. split; congruence. Qed.

(** A step of a call does not look at the trace. *)
Lemma call_step_same pc st1 st2 :
  same st1 st2 ->
  fst (call_step pc st1) = fst (call_step pc st2) /\
  same (snd (call_step pc st1)) (snd (call_step pc st2)).
Proof.
  destruct st1 as [f1 w1], st2 as [f2 w2]. intros [Hf Hw]. simpl in Hf. subst f2.
  destruct w1, w2. unfold erase, set_trace in Hw. simpl in Hw.
  injection Hw as -> -> -> -> -> -> -> ->.
  unfold same, erase.
  destruct pc; unfold call_step; unfold_m; break;
    (split; [reflexivity | split; reflexivity]).
Qed.

(** Run alone, the steps of a call are Rotate. *)
Lemma solo_Rotate createNew st :
  rotating (fst st) = false ->
  exists err st',
    Rotate createNew st = (Ret err, st') /\
    solo 3 createNew st = (PcReturned err false, st').
Proof.
  destruct st as [f w]. simpl. intros Hr.
  destruct (rotateLocked_returns createNew (set_rotating true f)
              (set_trace (trace w ++ [EvTryLock MuRotating true]) w))
    as (err & f' & w' & Hrun & Hrot & _).
  exists err. eexists. unfold solo, call_step, Rotate.
  unfold TryLock, Unlock, bind, get_fw, modify_fw, emit, modify_world, ret, held, set_held.
  simpl. rewrite Hr. simpl. rewrite Hrun. simpl. rewrite Hrot. simpl.
  split; reflexivity.
Qed.

Lemma call_step_not_TryLock pc st c : fst (call_step pc st) <> PcTryLock c.
Proof.
  destruct pc; unfold call_step; unfold_m; break; simpl; discriminate.
Qed.

(** Where a lone call can be: not started, holding the lock, or returned
    as Rotate returns. *)
Lemma solo_cases n createNew st :
  rotating (fst st) = false ->
  (n = O /\ solo n createNew st = (PcTryLock createNew, st)) \/
  (holds_lock (fst (solo n createNew st)) = true /\
   rotating (fst (snd (solo n createNew st))) = true) \/
  (exists err, fst (solo n createNew st) = PcReturned err false /\
               solo n createNew st = solo 3 createNew st).
Proof.
  intros Hr. destruct st as [f w]. simpl in Hr.
  destruct (rotateLocked_returns createNew (set_rotating true f)
              (set_trace (trace w ++ [EvTryLock MuRotating true]) w))
    as (err & f' & w' & Hrun & Hrot & _).
  assert (H1 : solo 1 createNew (f, w) =
               (PcLocked createNew,
                (set_rotating true f, set_trace (trace w ++ [EvTryLock MuRotating true]) w))).
  { unfold solo, call_step, TryLock, bind, get_fw, modify_fw, emit, modify_world, ret,
      held, set_held. simpl. rewrite Hr. reflexivity. }
  assert (H2 : solo 2 createNew (f, w) = (PcUnlock err, (f', w'))).
  { change (solo 2 createNew (f, w))
      with (let (pc, st') := solo 1 createNew (f, w) in call_step pc st').
    rewrite H1. simpl. rewrite Hrun. reflexivity. }
  assert (H3 : exists st3, solo 3 createNew (f, w) = (PcReturned err false, st3)).
  { change (solo 3 createNew (f, w))
      with (let (pc, st') := solo 2 createNew (f, w) in call_step pc st').
    rewrite H2. unfold call_step, Unlock, bind, get_fw, modify_fw, emit, modify_world,
      ret, held, set_held. simpl. rewrite Hrot. simpl. eauto. }
  destruct H3 as [st3 H3].
  assert (Hstay : forall k, solo (3 + k) createNew (f, w) = solo 3 createNew (f, w)).
  { induction k as [|k IH]; [reflexivity|].
    replace (3 + S k)%nat with (S (3 + k)) by lia.
    change (solo (S (3 + k)) createNew (f, w))
      with (let (pc, st') := solo (3 + k) createNew (f, w) in call_step pc st').
    rewrite IH, H3. reflexivity. }
  destruct n as [|[|[|n]]].
  - left. split; reflexivity.
  - right. left. rewrite H1. split; reflexivity.
  - right. left. rewrite H2. simpl. split; [reflexivity | rewrite Hrot; reflexivity].
  - right. right. exists err. change (S (S (S n))) with (3 + n)%nat.
    rewrite Hstay, H3. split; reflexivity.
Qed.

Lemma run_pair_app l1 l2 c : run_pair (l1 ++ l2) c = run_pair l2 (run_pair l1 c).
Proof. unfold run_pair. apply fold_left_app. Qed.

Lemma run_pair_swap schedule c :
  run_pair (negb <$> schedule) (swap c) = swap (run_pair schedule c).
Proof.
  revert c. induction schedule as [|x l IH]; intros c; [reflexivity|].
  simpl. rewrite <- IH. f_equal.
  destruct c as [[a b] st]. destruct x; simpl.
  - destruct (call_step a st); reflexivity.
  - destruct (call_step b st); reflexivity.
Qed.

Section TwoCalls.

Variables (cA cB : bool) (s0 : State).
Hypothesis lock_free : rotating (fst s0) = false.

Lemma alone_step first c : alone cA cB s0 c -> alone cA cB s0 (pair_step first c).
Proof using Type.
  destruct c as [[a b] st]. intros [HA HB]. destruct first; simpl.
  - destruct (call_step a st) as [a' st'] eqn:Hs. split.
    + intros x Hx. destruct (HA x Hx) as [n Hn]. exists (S n).
      simpl. rewrite Hn. exact Hs.
    + intros x Hx. exfalso. apply (call_step_not_TryLock a st x).
      rewrite Hs. exact Hx.
  - destruct (call_step b st) as [b' st'] eqn:Hs. split.
    + intros x Hx. exfalso. apply (call_step_not_TryLock b st x).
      rewrite Hs. exact Hx.
    + intros x Hx. destruct (HB x Hx) as [n Hn]. exists (S n).
      simpl. rewrite Hn. exact Hs.
Qed.

Lemma alone_run schedule :
  alone cA cB s0 (run_pair schedule (PcTryLock cA, PcTryLock cB, s0)).
Proof using Type.
  induction schedule as [|x l IH] using rev_ind.
  - simpl. split; intros; exists O; reflexivity.
  - rewrite run_pair_app. simpl. apply alone_step. exact IH.
Qed.

(** Once the first call has returned skipped, the second goes on as if
    alone. *)
Lemma skipped_then_alone schedule : forall b st st1 n,
  solo n cB s0 = (b, st) -> same st1 st ->
  exists m, 
    fst (fst (run_pair schedule (PcReturned None true, b, st1))) = PcReturned None true /\
    snd (fst (run_pair schedule (PcReturned None true, b, st1))) = fst (solo m cB s0) /\
    same (snd (run_pair schedule (PcReturned None true, b, st1))) (snd (solo m cB s0)).
Proof using Type.
  induction schedule as [|x l IH]; intros b st st1 n Hn Hs.
  - exists n. rewrite Hn. simpl. auto.
  - simpl. destruct x; simpl.
    + eapply IH; eauto.
    + destruct (call_step b st1) as [b' st1'] eqn:H1.
      destruct (call_step_same b st1 st Hs) as [Hpc Hst].
      rewrite H1 in Hpc, Hst. simpl in Hpc, Hst.
      apply (IH b' (snd (call_step b st)) st1' (S n)); [|exact Hst].
      simpl. rewrite Hn, Hpc. destruct (call_step b st); reflexivity.
Qed.

End TwoCalls.

Section Contention.

Variables (cA cB : bool) (s0 : State).
Hypothesis lock_free : rotating (fst s0) = false.

(** The first call tries the lock while the second holds it. *)
Lemma first_skipped before after a b st :
  run_pair before (PcTryLock cA, PcTryLock cB, s0) = (a, b, st) ->
  (exists x, a = PcTryLock x) -> holds_lock b = true ->
  exists m,
    fst (fst (run_pair (before ++ true :: after) (PcTryLock cA, PcTryLock cB, s0)))
      = PcReturned None true /\
    snd (fst (run_pair (before ++ true :: after) (PcTryLock cA, PcTryLock cB, s0)))
      = fst (solo m cB s0) /\
    same (snd (run_pair (before ++ true :: after) (PcTryLock cA, PcTryLock cB, s0)))
      (snd (solo m cB s0)).
Proof using lock_free.
  intros Hrun [x Hx] Hb.
  pose proof (alone_run cA cB s0 before) as Hal. rewrite Hrun in Hal.
  destruct Hal as [_ Hal]. destruct (Hal x Hx) as [n Hn].
  assert (Hrot : rotating (fst st) = true).
  { destruct (solo_cases n cB s0 lock_free) as [[_ H]|[[_ H]|[e [H _]]]];
      rewrite Hn in H; simpl in H.
    - injection H as H _. subst b. discriminate Hb.
    - exact H.
    - subst b. discriminate Hb. }
  rewrite run_pair_app, Hrun. subst a. simpl.
  destruct st as [f w]. simpl in Hrot.
  unfold TryLock, log, emit, bind, get_fw, modify_fw, modify_world, ret, held. simpl.
  rewrite Hrot. simpl.
  apply (skipped_then_alone cB s0 after b (f, w) _ n Hn).
  split; reflexivity.
Qed.

Lemma returned_alone m eb skb st' :
  fst (solo m cB s0) = PcReturned eb skb -> same st' (snd (solo m cB s0)) ->
  skb = false /\ exists stB, Rotate cB s0 = (Ret eb, stB) /\ same st' stB.
Proof using lock_free.
  intros Hpc Hs.
  destruct (solo_Rotate cB s0 lock_free) as (err & stB & HR & H3).
  destruct (solo_cases m cB s0 lock_free) as [[_ H]|[[H _]|[e [H Heq]]]].
  - rewrite H in Hpc. discriminate Hpc.
  - rewrite Hpc in H. discriminate H.
  - rewrite Heq, H3 in Hpc, Hs. simpl in Hpc, Hs. injection Hpc as -> ->.
    split; [reflexivity|]. exists stB. split; assumption.
Qed.

End Contention.

(** C4. When the rotation lock is already held, Rotate returns nil at once:
    it does not block, it changes no field of the writer and nothing in the
    world but the trace (the attempt and its debug message).  And when two
    calls of Rotate overlap, one trying the lock while the other holds it,
    and both have returned, then exactly one of them was skipped and returned
    nil, and the state is, up to the trace, the one the other call leaves
    when it runs alone. *)
Theorem Rotate_skipped_when_lock_held :
  (forall createNew f w,
     rotating f = true ->
     exists w', Rotate createNew (f, w) = (Ret None, (f, w')) /\ erase w' = erase w) /\
  (forall cA cB (s0 : State) schedule ea ska eb skb,
     rotating (fst s0) = false ->
     overlap schedule (PcTryLock cA, PcTryLock cB, s0) ->
     fst (run_pair schedule (PcTryLock cA, PcTryLock cB, s0))
       = (PcReturned ea ska, PcReturned eb skb) ->
     (ska = true /\ ea = None /\ skb = false /\
      exists st, Rotate cB s0 = (Ret eb, st) /\
                 same (snd (run_pair schedule (PcTryLock cA, PcTryLock cB, s0))) st) \/
     (skb = true /\ eb = None /\ ska = false /\
      exists st, Rotate cA s0 = (Ret ea, st) /\
                 same (snd (run_pair schedule (PcTryLock cA, PcTryLock cB, s0))) st)).
Proof.
  split.
  - intros createNew f w Hr. eexists. rewrite Rotate_skipped by exact Hr.
    split; reflexivity.
  - intros cA cB s0 schedule ea ska eb skb Hfree (before & first & after & -> & Hov) Hfin.
    destruct (run_pair before (PcTryLock cA, PcTryLock cB, s0)) as [[a b] st] eqn:Hrun.
    destruct first; destruct Hov as [Hme Hother].
    + left.
      destruct (first_skipped cA cB s0 Hfree before after a b st Hrun Hme Hother)
        as (m & H1 & H2 & H3).
      rewrite Hfin in H1, H2. simpl in H1, H2. injection H1 as -> ->.
      destruct (returned_alone cB s0 Hfree m eb skb _ (eq_sym H2) H3) as [-> Hst].
      auto.
    + right.
      pose proof (run_pair_swap before (PcTryLock cA, PcTryLock cB, s0)) as Hsw.
      rewrite Hrun in Hsw. simpl in Hsw.
      destruct (first_skipped cB cA s0 Hfree (negb <$> before) (negb <$> after) b a st
                  Hsw Hme Hother) as (m & H1 & H2 & H3).
      assert (Hsw' :
        run_pair ((negb <$> before) ++ true :: (negb <$> after))
          (PcTryLock cB, PcTryLock cA, s0)
        = swap (run_pair (before ++ false :: after) (PcTryLock cA, PcTryLock cB, s0))).
      { rewrite <- run_pair_swap, fmap_app. reflexivity. }
      rewrite Hsw' in H1, H2, H3.
      destruct (run_pair (before ++ false :: after) (PcTryLock cA, PcTryLock cB, s0))
        as [[a' b'] st'] eqn:Hr'. simpl in H1, H2, H3, Hfin. injection Hfin as -> ->.
      injection H1 as -> ->.
      destruct (returned_alone cA s0 Hfree m ea ska st' (eq_sym H2) H3) as [-> Hst].
      auto.
Qed.

Lemma Rotate_skipped_when_lock_held_witness :
  (exists w', Rotate true (fst Demo.busy, snd Demo.busy) = (Ret None, (fst Demo.busy, w')) /\
              erase w' = erase (snd Demo.busy)) /\
  (exists st, Rotate true Demo.started = (Ret None, st) /\
              same (snd (run_pair [true; false; true; true; false]
                           (PcTryLock true, PcTryLock false, Demo.started))) st).
Proof.
  split.
  - apply (proj1 Rotate_skipped_when_lock_held true (fst Demo.busy) (snd Demo.busy)).
    vm_compute. reflexivity.
  - destruct (proj2 Rotate_skipped_when_lock_held true false Demo.started
                [true; false; true; true; false] None false None true) as [H|H].
    + vm_compute. reflexivity.
    + exists [true], false, [true; true; false]. split; [reflexivity|].
      vm_compute. split; [exists false|]; reflexivity.
    + vm_compute. reflexivity.
    + destruct H as [H _]. discriminate H.
    + destruct H as (_ & _ & _ & H). exact H.
Defined.

(** ** Errors in Rotate *)

(** C8. Whatever call fails inside Rotate (stat, close, mkdir, rename,
    open), its error is what Rotate returns, and the failed call is the last
    one Rotate makes: after it come only the error log and the deferred
    unlock, and every call before it succeeded.  In particular, unless the
    failed call is the open itself, no file is opened at all, and the
    writer's file is still the old one. *)
Theorem Rotate_error_aborts createNew f w s :
  In (EvSys s false) (events (Rotate createNew) (f, w)) ->
  fst (Rotate createNew (f, w)) = Ret (Some s) /\
  (exists before,
     events (Rotate createNew) (f, w)
       = (before ++ [EvSys s false; EvLog LvlError (Some s) EmptyString;
                     EvUnlock MuRotating])%list /\
     forall s' ok, In (EvSys s' ok) before -> ok = true) /\
  (is_OpenFile s = false ->
   (forall p ok, ~ In (EvSys (SysOpenFile p) ok) (events (Rotate createNew) (f, w))) /\
   (forall h', fd (fst (snd (Rotate createNew (f, w)))) = Some h' ->
               exists h, fd f = Some h /\ name h' = name h)).
Proof.
  unfold events. unfold_m. break.
  all: repeat (rewrite <- app_assoc; simpl); rewrite ?drop_app_length.
  all: intros Hin; in_cases Hin.
  all: injection Hin as <-.
  all: split; [reflexivity|split].
  all: try match goal with
       | |- exists b, ?L = _ /\ _ =>
           exists (take (length L - 3) L); split; [reflexivity|];
           let H := fresh in intros ? ? H; in_cases H; injection H as _ <-; reflexivity
       end.
  all: intros Hopen; try discriminate Hopen; split.
  all: try (let H := fresh in intros ? ? H; in_cases H; fail).
  all: try (let H := fresh in
            intros ? H; simpl in H; try discriminate H; injection H as <-;
            eexists; split; reflexivity).
  all: intros h' H; try congruence; exists h'; split; congruence.
Qed.

Lemma Rotate_error_aborts_witness :
  let st := (fst Demo.started, DemoFaults.rename_fails) in
  let s := SysRename "data/open/01J.ndjson" "data/closed/01J.ndjson" in
  fst (Rotate true st) = Ret (Some s) /\
  (exists before,
     events (Rotate true) st
       = (before ++ [EvSys s false; EvLog LvlError (Some s) EmptyString;
                     EvUnlock MuRotating])%list /\
     forall s' ok, In (EvSys s' ok) before -> ok = true) /\
  (is_OpenFile s = false ->
   (forall p ok, ~ In (EvSys (SysOpenFile p) ok) (events (Rotate true) st)) /\
   (forall h', fd (fst (snd (Rotate true st))) = Some h' ->
               exists h, fd (fst Demo.started) = Some h /\ name h' = name h)).
Proof.
  apply (Rotate_error_aborts true (fst Demo.started) DemoFaults.rename_fails).
  vm_compute. tauto.
Defined.

(** ** Rotation of the open segment *)

(** C7. When Rotate gets the lock, the writer has a file, and stat, close,
    mkdir and rename do not fail, the segment is closed and renamed into the
    closed directory under its own base name, with the contents [c] it had,
    whatever they are: an empty segment is moved like any other.  The data
    directory is a clean path and the base name of the segment a simple
    name, so that the target is what [filepath.Join] makes of them. *)
Theorem Rotate_moves_segment createNew f w h c :
  clean_dir (DataDirectory f) = true -> simple_name (Base (name h)) = true ->
  rotating f = false ->
  fd f = Some h -> closed h = false -> files w !! name h = Some c ->
  faults w (clock w) (SysStat (name h)) = false ->
  faults w (S (clock w)) (SysClose (name h)) = false ->
  faults w (S (S (clock w))) (SysMkdirAll (closedDir f)) = false ->
  faults w (S (S (S (clock w))))
    (SysRename (name h) (Join (closedDir f) (Base (name h)))) = false ->
  let target := Join (closedDir f) (Base (name h)) in
  let st' := snd (Rotate createNew (f, w)) in
  target
    = filepath_Join [filepath_Join [DataDirectory f; "closed"]; Base (name h)] /\
  Dir target = closedDir f /\ Base target = Base (name h) /\
  In (EvSys (SysClose (name h)) true) (events (Rotate createNew) (f, w)) /\
  In (EvSys (SysRename (name h) target) true) (events (Rotate createNew) (f, w)) /\
  files (snd st') !! target = Some c /\
  (createNew = false ->
   fd (fst st') = Some {| name := name h; closed := true |} /\
   (name h <> target -> files (snd st') !! name h = None)).
Proof.
  intros Hclean Hbase' Hr Hfd Hc Hf F1 F2 F3 F4 target st'.
  split.
  { destruct (closedDir_faithful f Hclean) as [<- Hcd]. subst target.
    symmetry. apply filepath_Join_clean; assumption. }
  assert (Hdir : Dir target = closedDir f).
  { apply Dir_Join, has_slash_Base. }
  assert (Hbase : Base target = Base (name h)).
  { apply Base_Join, has_slash_Base. }
  split; [exact Hdir|]. split; [exact Hbase|].
  assert (Hin : bool_decide (Dir target ∈ ({[closedDir f]} ∪ dirs w : gset string)) = true).
  { apply bool_decide_eq_true_2. rewrite Hdir. set_solver. }
  subst st' target. unfold events. unfold closedDir in *. unfold_m. simpl.
  repeat (simpl; progress (rewrite ?Hr, ?Hfd, ?Hc, ?Hf, ?F1, ?F2, ?F3, ?Hin, ?F4)).
  simpl.
  destruct createNew.
  - break.
    all: repeat (rewrite <- app_assoc; simpl); rewrite ?drop_app_length.
    all: simpl; repeat split; try tauto; try discriminate.
    all: try apply lookup_insert_eq.
    all: rewrite lookup_insert_ne by apply open_closed_disjoint; apply lookup_insert_eq.
  - simpl. repeat (rewrite <- app_assoc; simpl). rewrite ?drop_app_length.
    simpl. repeat split; try tauto.
    + apply lookup_insert_eq.
    + intros Hne. rewrite lookup_insert_ne by congruence. apply lookup_delete_eq.
Qed.


(** The empty segment NewFileWriter has just opened is moved by Rotate. *)
Lemma Rotate_moves_segment_witness :
  let f := fst Demo.started in
  let w := snd Demo.started in
  let h := {| name := "data/open/01J.ndjson"; closed := false |} in
  let target := Join (closedDir f) (Base (name h)) in
  let st' := snd (Rotate false (f, w)) in
  target
    = filepath_Join [filepath_Join [DataDirectory f; "closed"]; Base (name h)] /\
  Dir target = closedDir f /\ Base target = Base (name h) /\
  In (EvSys (SysClose (name h)) true) (events (Rotate false) (f, w)) /\
  In (EvSys (SysRename (name h) target) true) (events (Rotate false) (f, w)) /\
  files (snd st') !! target = Some EmptyString /\
  (false = false ->
   fd (fst st') = Some {| name := name h; closed := true |} /\
   (name h <> target -> files (snd st') !! name h = None)).
Proof.
  intros f w h.
  apply (Rotate_moves_segment false f w h EmptyString); vm_compute; reflexivity.
Defined.

(** ** The timer *)

(** C5. A tick of the timer calls Rotate only when the open segment is not
    empty, and then it is [Rotate true] between the lock and the unlock of
    the write lock; with an empty open segment the tick calls no Rotate and
    leaves the files and the writer's file as they are. *)
Theorem timerTick_rotates_nonempty_only f w :
  ((exists ok, In (EvTryLock MuRotating ok) (events timerTick (f, w))) ->
   exists h c,
     fd f = Some h /\ files w !! name h = Some c /\ c <> EmptyString /\
     timerTick (f, w)
       = (Lock MuCanWrite ;; _ <- fd_Stat ;; _ <- Rotate true ;; Unlock MuCanWrite) (f, w)) /\
  (forall h,
     fd f = Some h -> files w !! name h = Some EmptyString ->
     (forall ok, ~ In (EvTryLock MuRotating ok) (events timerTick (f, w))) /\
     files (snd (snd (timerTick (f, w)))) = files w /\
     fd (fst (snd (timerTick (f, w)))) = fd f).
Proof.
  split.
  - unfold events. unfold_m. break.
    all: repeat (rewrite <- app_assoc; simpl); rewrite ?drop_app_length, ?drop_all.
    all: intros [ok Hin]; in_cases Hin.
    all: do 2 eexists; split; [reflexivity|]; split; [eassumption|].
    all: split; [|reflexivity].
    all: intros ->; discriminate.
  - intros h Hfd Hf. unfold events. unfold_m. simpl.
    destruct (canWrite f); simpl.
    + rewrite drop_all. split; [intros ok Hin; destruct Hin | split; congruence].
    + rewrite Hfd. simpl. rewrite Hf. simpl.
      destruct (negb (closed h) && true && negb (faults w (clock w) (SysStat (name h))));
        simpl; repeat (rewrite <- app_assoc; simpl); rewrite ?drop_app_length;
        (split; [intros ok Hin; in_cases Hin|split; congruence]).
Qed.

Lemma timerTick_rotates_nonempty_only_witness :
  (exists h c,
     fd (fst Demo.written) = Some h /\
     files (snd Demo.written) !! name h = Some c /\ c <> EmptyString /\
     timerTick (fst Demo.written, snd Demo.written)
       = (Lock MuCanWrite ;; _ <- fd_Stat ;; _ <- Rotate true ;; Unlock MuCanWrite)
           (fst Demo.written, snd Demo.written)) /\
  ((forall ok, ~ In (EvTryLock MuRotating ok)
                    (events timerTick (fst Demo.started, snd Demo.started))) /\
   files (snd (snd (timerTick (fst Demo.started, snd Demo.started))))
     = files (snd Demo.started) /\
   fd (fst (snd (timerTick (fst Demo.started, snd Demo.started))))
     = fd (fst Demo.started)).
Proof.
  split.
  - apply (proj1 (timerTick_rotates_nonempty_only (fst Demo.written) (snd Demo.written))).
    exists true. vm_compute. tauto.
  - apply (proj2 (timerTick_rotates_nonempty_only (fst Demo.started) (snd Demo.started))
             {| name := "data/open/01J.ndjson"; closed := false |});
      vm_compute; reflexivity.
Defined.

(** ** Shutdown *)



















(** ** Startup *)

(** C10. With a positive ticker interval, NewFileWriter returns the writer
    whatever fails on the way: a failure of either mkdir or of a call of the
    first rotation is logged, and startup goes on to launch the two tasks.
    The result is the writer alone: it carries no error. *)
Theorem NewFileWriter_returns_writer dataDirectory cfg uploadDirectory tags w :
  0 < wrap64 (MaxAgeSeconds cfg * 1000000000) ->
  let st := (newWriter dataDirectory cfg uploadDirectory tags, w) in
  exists fw w' before,
    NewFileWriter dataDirectory cfg uploadDirectory tags w = (Ret fw, (fw, w')) /\
    failures_logged (events startWriter st) /\
    events startWriter st
      = (before ++ [EvWgAdd; EvGo TaskRotateOnTimer; EvWgAdd; EvGo TaskPushFiles])%list.
Proof.
  intros Hpos st. subst st. apply Z.gtb_lt in Hpos.
  unfold NewFileWriter, newWriter, events. unfold_m. simpl. rewrite Hpos. break.
  all: repeat (rewrite <- app_assoc; simpl); rewrite ?drop_app_length.
  all: do 2 eexists.
  all: match goal with
       | |- exists b, _ /\ _ /\ ?L = _ => exists (take (length L - 4) L)
       end.
  all: split; [reflexivity|]; split; [simpl; tauto|reflexivity].
Qed.

(** On a disk where no directory can be made both mkdir fail and so does
    the first rotation; each failure is logged and the writer is returned,
    without a segment. *)
Lemma NewFileWriter_returns_writer_witness :
  let st := (newWriter "data" Demo.cfg "upload" Demo.tags, DemoFaults.mkdir_fails) in
  (In (EvSys (SysMkdirAll "data/closed") false) (events startWriter st) /\
   In (EvSys (SysMkdirAll "data/open") false) (events startWriter st) /\
   fst (Rotate true (snd ((NewTicker 60 ;; os_MkdirAll "data/closed" ;;
                           os_MkdirAll "data/open") st)))
     = Ret (Some (SysMkdirAll "data/open")) /\
   fd (fst (snd (startWriter st))) = None) /\
  exists fw w' before,
    NewFileWriter "data" Demo.cfg "upload" Demo.tags DemoFaults.mkdir_fails
      = (Ret fw, (fw, w')) /\
    failures_logged (events startWriter st) /\
    events startWriter st
      = (before ++ [EvWgAdd; EvGo TaskRotateOnTimer; EvWgAdd; EvGo TaskPushFiles])%list.
Proof.
  intros st. split.
  - vm_compute. repeat split; repeat (first [left; reflexivity | right]).
  - apply (NewFileWriter_returns_writer "data" Demo.cfg "upload" Demo.tags
             DemoFaults.mkdir_fails).
    vm_compute. reflexivity.
Defined.

(** ** Writes and the size threshold *)

Lemma append_inj_r a b c : a +:+ c = b +:+ c -> a = b.
Proof.
  revert b. induction a as [|x a IH]; intros [|y b] H.
  - reflexivity.
  - apply (f_equal String.length) in H. rewrite append_nil_l, append_cons in H.
    simpl in H. rewrite length_append in H. lia.
  - apply (f_equal String.length) in H. rewrite append_nil_l, append_cons in H.
    simpl in H. rewrite length_append in H. lia.
  - rewrite !append_cons in H. injection H as -> H. f_equal. apply IH, H.
Qed.

Lemma segment_path_inj d a b :
  Join d (a +:+ ".ndjson") = Join d (b +:+ ".ndjson") -> a = b.
Proof.
  unfold Join. intros H. apply append_inj_l in H. apply append_inj_l in H.
  apply append_inj_r in H. exact H.
Qed.


(** A lookup that finds nothing, through the updates the writer makes. *)
Ltac absent Hinj Hfresh :=
  repeat match goal with
  | |- alter _ _ _ !! _ = None => apply lookup_alter_None
  | |- delete _ _ !! _ = None => apply lookup_delete_None; right
  | |- <[Join (Join _ "closed") _ := _]> _ !! _ = None =>
      apply lookup_insert_None; split;
        [|intros Heq; exact (open_closed_disjoint _ _ _ (eq_sym Heq))]
  | |- <[Join _ (_ +:+ ".ndjson") := _]> _ !! _ = None =>
      apply lookup_insert_None; split;
        [|intros Heq; apply segment_path_inj, Hinj in Heq; lia]
  end; try (apply Hfresh; lia).

Lemma Write_keeps_invariant data st :
  idle st -> fresh_ids st ->
  (exists err, fst (Write data st) = Ret err) /\
  idle (snd (Write data st)) /\ fresh_ids (snd (Write data st)).
Proof.
  destruct st as [f w]. intros [Hr Hc] [Hinj Hfresh]. simpl in *.
  unfold idle, fresh_ids. unfold_m. simpl. rewrite Hc. break.
  all: split; [eexists; reflexivity|]; split; [split; first [reflexivity|assumption]|].
  all: split; [exact Hinj|]; intros n Hn; simpl in Hn.
  all: absent Hinj Hfresh.
Qed.

Lemma writes_keep_invariant records : forall st,
  idle st -> fresh_ids st ->
  idle (writes records st) /\ fresh_ids (writes records st).
Proof.
  induction records as [|data rest IH]; intros st Hi Hf; [split; assumption|].
  simpl. destruct (Write_keeps_invariant data st Hi Hf) as (_ & Hi' & Hf').
  apply IH; assumption.
Qed.

Lemma wrap64_small z : 0 <= z < 2 ^ 63 -> wrap64 z = z.
Proof.
  intros H. unfold wrap64. rewrite Z.mod_small; lia.
Qed.

Lemma Write_accepted data f w st' :
  idle (f, w) -> fresh_ids (f, w) ->
  (forall h0 c0, fd f = Some h0 -> files w !! name h0 = Some c0 ->
     len c0 + len data < 2 ^ 63) ->
  Write data (f, w) = (Ret None, st') ->
  exists h prior line,
    fd (fst st') = Some h /\ closed h = false /\
    files (snd st') !! name h = Some (prior +:+ line) /\
    (prior = EmptyString \/ len prior + len data <= MaxSizeBytes (config f)) /\
    exists before,
      trace (snd st')
        = trace w ++ before ++ [EvSys (SysWriteString (name h) line) true;
                                EvUnlock MuCanWrite] /\
      (forall h0 c0, fd f = Some h0 -> files w !! name h0 = Some c0 ->
         if len c0 + len data >? MaxSizeBytes (config f)
         then prior = EmptyString /\ In (EvTryLock MuRotating true) before
         else h = h0 /\ prior = c0 /\
              forall ok, ~ In (EvTryLock MuRotating ok) before).
Proof.
  intros [Hr Hc] [Hinj Hfresh] Hno. simpl in *. unfold len in *.
  unfold_m. simpl. rewrite Hc. break.
  all: intros H; try discriminate H; injection H as <-.
  all: try (exfalso;
            match goal with
            | H : _ && false && _ = true |- _ => rewrite andb_false_r in H; discriminate H
            end).
  all: match goal with
       | H2 : files _ !! _ = Some _ |- _ => pose proof (Hno _ _ eq_refl H2) as Hsmall
       end.
  all: match goal with
       | H : (wrap64 _ >? _) = _ |- _ => rewrite wrap64_small in H by lia
       end.
  all: try match goal with
       | H : ?L = Some _ |- _ =>
           match L with
           | context [delete] =>
               assert (HN : L = None) by absent Hinj Hfresh;
               rewrite HN in H; discriminate H
           end
       end.
  all: do 3 eexists; simpl; split; [first [reflexivity|eassumption]|]; split;
         [simpl; try reflexivity;
          match goal with H : negb (closed ?x) && _ && _ = true |- closed ?x = false =>
            destruct (closed x); [discriminate H|reflexivity] end|].
  all: split; [simpl; rewrite lookup_alter_eq, ?lookup_insert_eq;
               first [reflexivity | match goal with H : _ = Some _ |- _ => rewrite H end; reflexivity]|].
  all: match goal with
       | H : (?a >? ?b) = _ |- _ => pose proof (Zgt_cases a b) as Hcases; rewrite H in Hcases
       end.
  all: split; [first [left; reflexivity | right; exact Hcases]|].
  all: repeat (rewrite <- app_assoc; simpl).
  all: match goal with
       | |- exists b, _ ++ ?L = _ /\ _ => exists (take (length L - 2) L)
       end; split; [reflexivity|].
  all: intros h0 c0 E1 E2; injection E1 as <-;
       match goal with
       | H : files ?w !! ?k = Some ?s |- _ =>
           tryif constr_eq s c0 then fail
           else (assert (Hs : c0 = s) by congruence; subst c0)
       end;
       match goal with H : (_ >? _) = _ |- _ => rewrite H end.
  all: simpl; first [ split; [reflexivity | tauto]
                    | split; [reflexivity|split; [reflexivity|]];
                      intros ok Hin; in_cases Hin ].
Qed.


(** C1. Start from a writer with no call under way, in an environment whose
    ids never repeat and where no segment bears an id still to come.  After
    any sequence of Write calls, let one more Write be accepted (it returns
    nil), the int64 sum of its comparison not overflowing.  Then its line
    is appended to the writer's segment, which held [prior] before: and
    either [prior] is empty or [len prior + len data] is within
    MaxSizeBytes, so that with a threshold that is not negative the segment
    did not exceed it when the record was accepted.  Write decided this
    before writing: when the size of the open segment plus the length of
    the record exceeded the threshold it rotated first, and the line went
    into the new, empty segment; otherwise it rotated nothing and the line
    went into the segment that was open. *)
Theorem Write_accepts_within_threshold st records data st' :
  idle st -> fresh_ids st ->
  let s1 := writes records st in
  let maxSize := MaxSizeBytes (config (fst s1)) in
  (forall h0 c0, fd (fst s1) = Some h0 -> files (snd s1) !! name h0 = Some c0 ->
     len c0 + len data < 2 ^ 63) ->
  Write data s1 = (Ret None, st') ->
  exists h prior line,
    fd (fst st') = Some h /\ closed h = false /\
    files (snd st') !! name h = Some (prior +:+ line) /\
    (prior = EmptyString \/ len prior + len data <= maxSize) /\
    (0 <= maxSize -> len prior <= maxSize) /\
    exists before,
      trace (snd st')
        = trace (snd s1) ++ before ++ [EvSys (SysWriteString (name h) line) true;
                                       EvUnlock MuCanWrite] /\
      (forall h0 c0, fd (fst s1) = Some h0 -> files (snd s1) !! name h0 = Some c0 ->
         if len c0 + len data >? maxSize
         then prior = EmptyString /\ In (EvTryLock MuRotating true) before
         else h = h0 /\ prior = c0 /\
              forall ok, ~ In (EvTryLock MuRotating ok) before).
Proof.
  intros Hi Hf s1 maxSize Hno Hw.
  destruct (writes_keep_invariant records st Hi Hf) as [Hi1 Hf1].
  fold s1 in Hi1, Hf1. subst maxSize. destruct s1 as [f w]. simpl in *.
  destruct (Write_accepted data f w st' Hi1 Hf1 Hno Hw)
    as (h & prior & line & H1 & H2 & H3 & H4 & before & H5 & H6).
  exists h, prior, line. repeat (split; [assumption|]).
  split.
  - intros Hmax. destruct H4 as [->|H4]; unfold len in *; simpl; lia.
  - exists before. split; assumption.
Qed.

Lemma demo_zs_length n : String.length (Demo.zs n) = n.
Proof. induction n as [|n IH]; simpl; [reflexivity | rewrite IH; reflexivity]. Qed.

Lemma demo_ulid_inj n m : Demo.ulid n = Demo.ulid m -> n = m.
Proof.
  unfold Demo.ulid. intros H. apply append_inj_l in H.
  apply (f_equal String.length) in H. rewrite !demo_zs_length in H. exact H.
Qed.

Lemma demo_started_fresh : fresh_ids Demo.started.
Proof.
  split.
  - exact demo_ulid_inj.
  - intros n Hn.
    change (files (snd Demo.started)) with (files (snd Demo.started)).
    assert (Hfiles : files (snd Demo.started)
                     = <[Join (openDir (fst Demo.started)) (Demo.ulid 0 +:+ ".ndjson")
                           := EmptyString]> ∅).
    { vm_compute. reflexivity. }
    assert (Hmade : made (snd Demo.started) = 1%nat) by (vm_compute; reflexivity).
    assert (Hul : ulids (snd Demo.started) = Demo.ulid) by (vm_compute; reflexivity).
    rewrite Hmade in Hn. rewrite Hfiles, Hul.
    apply lookup_insert_None. split; [apply lookup_empty|].
    intros Heq. apply segment_path_inj, demo_ulid_inj in Heq. lia.
Qed.

Lemma Write_accepts_within_threshold_witness :
  let s1 := writes [Demo.record; Demo.record] Demo.started in
  let st' := snd (Write Demo.record s1) in
  exists h prior line,
    fd (fst st') = Some h /\ closed h = false /\
    files (snd st') !! name h = Some (prior +:+ line) /\
    (prior = EmptyString \/ len prior + len Demo.record <= MaxSizeBytes (config (fst s1))) /\
    (0 <= MaxSizeBytes (config (fst s1)) -> len prior <= MaxSizeBytes (config (fst s1))).
Proof.
  intros s1 st'.
  destruct (Write_accepts_within_threshold Demo.started [Demo.record; Demo.record]
              Demo.record st')
    as (h & prior & line & H1 & H2 & H3 & H4 & H5 & _).
  - vm_compute. split; reflexivity.
  - exact demo_started_fresh.
  - intros h0 c0 E1 E2. vm_compute in E1. injection E1 as <-.
    vm_compute in E2. injection E2 as <-. vm_compute. reflexivity.
  - vm_compute. reflexivity.
  - exists h, prior, line. auto.
Defined.

(** ** The upload pump *)

Lemma forEach_logs {A} (l : list A) (msg : A -> string) lvl f w :
  forEach l (fun x => log lvl None (msg x)) (f, w)
  = (Ret tt, (f, set_trace (trace w ++ ((fun x => EvLog lvl None (msg x)) <$> l)) w)).
Proof.
  revert w. induction l as [|x l IH]; intros w.
  - simpl. unfold ret. rewrite app_nil_r. destruct w; reflexivity.
  - simpl. unfold bind at 1. unfold log at 1, emit, modify_world. simpl.
    rewrite IH. simpl. rewrite <- app_assoc. reflexivity.
Qed.

Lemma forEach_app {A} (l1 l2 : list A) body st :
  forEach (l1 ++ l2) body st = (forEach l1 body ;; forEach l2 body) st.
Proof.
  revert st. induction l1 as [|x l1 IH]; intros st.
  - reflexivity.
  - simpl. unfold bind in *. destruct (body x st) as [[| | |] st']; try reflexivity.
    apply IH.
Qed.

(** The upload of one closed segment, by what fails. *)
Lemma uploadS3File_run f w e c :
  files w !! Join (closedDir f) e = Some c ->
  let p := Join (closedDir f) e in
  let open_ok := negb (faults w (clock w) (SysOpen p)) in
  let put := SysPutObject (S3Bucket (config f)) (Join (UploadDirectory f) e) in
  let put_ok := negb (faults w (S (clock w)) put) in
  let send := SysSendMessage (SQS (config f)) in
  let send_ok := negb (faults w (S (S (clock w))) send) in
  uploadS3File e (f, w) =
    if open_ok then
      if put_ok then
        if send_ok then
          (Ret None,
           (f, set_clock (S (S (S (clock w))))
                 (set_trace (trace w ++ [EvSys (SysOpen p) true; EvSys put true]
                               ++ message_logs f ++ [EvSys send true])
                    (set_sqs (sqs w ++ [message_for f e])
                       (set_s3 (s3 w ++ [object_for f e c]) w)))))
        else
          (Ret (Some send),
           (f, set_clock (S (S (S (clock w))))
                 (set_trace (trace w ++ [EvSys (SysOpen p) true; EvSys put true]
                               ++ message_logs f ++ [EvSys send false])
                    (set_s3 (s3 w ++ [object_for f e c]) w))))
      else
        (Ret (Some put),
         (f, set_clock (S (S (clock w)))
               (set_trace (trace w ++ [EvSys (SysOpen p) true; EvSys put false]) w)))
    else
      (Ret (Some (SysOpen p)),
       (f, set_clock (S (clock w))
             (set_trace (trace w ++ [EvSys (SysOpen p) false;
                                     EvLog LvlDebug (Some (SysOpen p))
                                       ("os.Open - filename: " +:+ p)]) w))).
Proof.
  intros Hf p open_ok put put_ok send send_ok.
  subst p open_ok put put_ok send send_ok.
  unfold uploadS3File, os_Open, S3_PutObject, SQS_SendMessage, syscall, exists_file,
    bind, ret, get_fw, get_world, modify_world.
  simpl. rewrite Hf. simpl.
  destruct (faults w (clock w) _); simpl.
  { unfold log, emit, modify_world. simpl. rewrite <- app_assoc. reflexivity. }
  destruct (faults w (S (clock w)) _); simpl.
  { rewrite <- app_assoc. reflexivity. }
  rewrite forEach_logs. simpl.
  unfold log, emit, modify_world. simpl.
  destruct (faults w (S (S (clock w))) _); simpl;
    unfold message_logs, object_for, message_for;
    repeat (rewrite <- app_assoc; simpl); reflexivity.
Qed.

Lemma pushEntry_empty_run f w e :
  let p := Join (closedDir f) e in
  files w !! p = Some EmptyString ->
  faults w (clock w) (SysInfo p) = false ->
  pushEntry (closedDir f) e (f, w) =
    if negb (faults w (S (clock w)) (SysRemove p)) then
      (Ret tt,
       (f, set_clock (S (S (clock w)))
             (set_trace (trace w ++ [EvSys (SysInfo p) true; EvSys (SysRemove p) true])
                (set_files (delete p (files w)) w))))
    else
      (Ret tt,
       (f, set_clock (S (S (clock w)))
             (set_trace (trace w ++ [EvSys (SysInfo p) true; EvSys (SysRemove p) false;
                                     EvLog LvlError (Some (SysRemove p))
                                       ("Unable to remove file " +:+ p)]) w))).
Proof.
  intros p Hf Hi. subst p.
  unfold pushEntry, entry_Info, os_Remove, syscall, exists_file, size_of, log, emit,
    bind, ret, get_fw, get_world, modify_world.
  simpl. rewrite Hf, Hi. simpl. rewrite Hf. simpl.
  destruct (faults w (S (clock w)) _); simpl;
    repeat (rewrite <- app_assoc; simpl); reflexivity.
Qed.


Lemma pushEntry_nonempty_run f w e c :
  let p := Join (closedDir f) e in
  files w !! p = Some c -> c <> EmptyString ->
  faults w (clock w) (SysInfo p) = false ->
  pushEntry (closedDir f) e (f, w) =
    match uploadS3File e (f, informed p w) with
    | (Ret None, st) => 
        (err <- os_Remove p ;;
         match err with
         | Some e => log LvlError (Some e) ("Unable to remove file " +:+ p)
         | None => ret tt
         end) st
    | (Ret (Some err), st) => log_Fatal (Some err) "Unable to upload" st
    | (Fatal, st) => (Fatal, st)
    | (Panic, st) => (Panic, st)
    | (Blocked, st) => (Blocked, st)
    end.
Proof.
  intros p Hf Hc Hi. subst p.
  assert (Hsz : (Z.of_nat (String.length c) >? 0) = true).
  { destruct c; [congruence|]. reflexivity. }
  unfold pushEntry. unfold bind at 1.
  unfold entry_Info, syscall, exists_file, size_of, bind, ret, get_world, modify_world.
  simpl. rewrite Hf, Hi. simpl. rewrite Hsz.
  unfold informed.
  destruct (uploadS3File e _) as [[[?|]| | |] ?]; reflexivity.
Qed.

Lemma pushScan_reaches f w0 w1 w l1 e l2 :
  os_ReadDir (closedDir f) (f, w0) = (Ret (inr (l1 ++ e :: l2)), (f, w1)) ->
  forEach l1 (pushEntry (closedDir f)) (f, w1) = (Ret tt, (f, w)) ->
  pushScan (f, w0)
  = (pushEntry (closedDir f) e ;; forEach l2 (pushEntry (closedDir f)) ;; emit EvSleep) (f, w).
Proof.
  intros Hrd Hl1. unfold pushScan. unfold bind at 1. unfold get_fw. simpl.
  unfold bind at 1. rewrite Hrd. unfold bind at 1. rewrite forEach_app.
  unfold bind at 1. rewrite Hl1. simpl. unfold bind.
  destruct (pushEntry (closedDir f) e (f, w)) as [[| | |] ?]; reflexivity.
Qed.

(** C3, amended. In a scan of the pump whose listing succeeded, take an
    entry [e] that the scan reaches (the entries before it did not end the
    process), that is not empty, and whose [Info] succeeds.  The scan opens
    it, puts its bytes under [<UploadDirectory>/<e>] with content
    disposition "attachment", then sends the notification.  When the open,
    the put and the send all succeed, [os.Remove] is called on the file:
    the file is gone when that call succeeds, and a failed removal is logged
    and leaves it in place, the scan going on.  When one of the three fails,
    no removal is attempted, the file is left as it is and the process
    exits through [log.Fatal].  The data directory and the upload directory
    are clean paths and [e] is a simple name, so that the paths and the key
    are what [filepath.Join] makes of them. *)
Theorem pushScan_uploads_nonempty f w0 w1 w l1 e l2 c :
  let d := closedDir f in
  let p := Join d e in
  clean_dir (DataDirectory f) = true -> clean_dir (UploadDirectory f) = true ->
  simple_name e = true ->
  os_ReadDir d (f, w0) = (Ret (inr (l1 ++ e :: l2)), (f, w1)) ->
  forEach l1 (pushEntry d) (f, w1) = (Ret tt, (f, w)) ->
  files w !! p = Some c -> c <> EmptyString ->
  faults w (clock w) (SysInfo p) = false ->
  let put := SysPutObject (S3Bucket (config f)) (Join (UploadDirectory f) e) in
  let send := SysSendMessage (SQS (config f)) in
  let open_ok := negb (faults w (1 + clock w) (SysOpen p)) in
  let put_ok := negb (faults w (2 + clock w) put) in
  let send_ok := negb (faults w (3 + clock w) send) in
  let remove_ok := negb (faults w (4 + clock w) (SysRemove p)) in
  let r := pushEntry d e (f, w) in
  (d = filepath_Join [DataDirectory f; "closed"] /\ p = filepath_Join [d; e] /\
   Join (UploadDirectory f) e = filepath_Join [UploadDirectory f; e]) /\
  pushScan (f, w0) = (pushEntry d e ;; forEach l2 (pushEntry d) ;; emit EvSleep) (f, w) /\
  (open_ok && put_ok && send_ok = true ->
     fst r = Ret tt /\
     s3 (snd (snd r)) = (s3 w ++ [object_for f e c])%list /\
     sqs (snd (snd r)) = (sqs w ++ [message_for f e])%list /\
     events (pushEntry d e) (f, w)
       = ([EvSys (SysInfo p) true; EvSys (SysOpen p) true; EvSys put true]
          ++ message_logs f
          ++ [EvSys send true; EvSys (SysRemove p) remove_ok]
          ++ (if remove_ok then []
              else [EvLog LvlError (Some (SysRemove p)) ("Unable to remove file " +:+ p)]))%list /\
     files (snd (snd r)) = (if remove_ok then delete p (files w) else files w)) /\
  (open_ok && put_ok && send_ok = false ->
     fst r = Fatal /\
     files (snd (snd r)) = files w /\
     (forall ok, ~ In (EvSys (SysRemove p) ok) (events (pushEntry d e) (f, w))) /\
     s3 (snd (snd r))
       = (if open_ok && put_ok then s3 w ++ [object_for f e c] else s3 w)%list /\
     sqs (snd (snd r)) = sqs w /\
     exists err before,
       events (pushEntry d e) (f, w)
         = (before ++ [EvLog LvlFatal (Some err) "Unable to upload"])%list).
Proof.
  intros d p Hdata Hup He Hrd Hl1 Hf Hc Hi put send open_ok put_ok send_ok remove_ok r.
  split.
  { destruct (closedDir_faithful f Hdata) as [Hd Hcd]. subst d p.
    split; [exact Hd|]. split; symmetry; apply filepath_Join_clean; assumption. }
  split; [exact (pushScan_reaches f w0 w1 w l1 e l2 Hrd Hl1)|].
  subst r. unfold events. subst d p.
  rewrite (pushEntry_nonempty_run f w e c Hf Hc Hi).
  rewrite (uploadS3File_run f (informed (Join (closedDir f) e) w) e c Hf).
  subst open_ok put_ok send_ok remove_ok put send. simpl.
  destruct (faults w (S (clock w)) _); simpl.
  { split; [discriminate|]. intros _.
    unfold log_Fatal, log, emit, exit, bind, modify_world. simpl.
    repeat (rewrite <- app_assoc; simpl). rewrite drop_app_length.
    repeat split; try reflexivity.
    - intros ok Hin. in_cases Hin.
    - match goal with
      | |- exists err b, ?L = _ => eexists; exists (take (length L - 1) L); reflexivity
      end. }
  destruct (faults w (S (S (clock w))) _); simpl.
  { split; [discriminate|]. intros _.
    unfold log_Fatal, log, emit, exit, bind, modify_world. simpl.
    repeat (rewrite <- app_assoc; simpl). rewrite drop_app_length.
    repeat split; try reflexivity.
    - intros ok Hin. in_cases Hin.
    - match goal with
      | |- exists err b, ?L = _ => eexists; exists (take (length L - 1) L); reflexivity
      end. }
  destruct (faults w (S (S (S (clock w)))) _); simpl.
  { split; [discriminate|]. intros _.
    unfold log_Fatal, log, emit, exit, bind, modify_world. simpl.
    repeat (rewrite <- app_assoc; simpl). rewrite drop_app_length.
    repeat split; try reflexivity.
    - intros ok Hin. unfold message_logs in Hin.
      rewrite <- app_assoc in Hin. simpl in Hin.
      destruct Hin as [Hin|[Hin|[Hin|Hin]]]; try discriminate Hin.
      apply in_app_or in Hin. destruct Hin as [Hin|Hin].
      + apply in_map_iff in Hin. destruct Hin as (kv & Hkv & _). discriminate Hkv.
      + in_cases Hin.
    - eexists.
      eexists ([EvSys (SysInfo _) true; EvSys (SysOpen _) true; EvSys (SysPutObject _ _) true]
               ++ message_logs f ++ [EvSys (SysSendMessage _) false]).
      simpl. rewrite <- app_assoc. reflexivity. }
  split; [|discriminate]. intros _.
  unfold os_Remove, syscall, exists_file, log, emit, bind, ret, get_world, modify_world.
  simpl. rewrite Hf. simpl.
  destruct (faults w (S (S (S (S (clock w))))) _); simpl;
    repeat (rewrite <- app_assoc; simpl); rewrite drop_app_length;
    repeat split; reflexivity.
Qed.

Lemma pushScan_uploads_nonempty_witness :
  let f := fst DemoPump.rotated in
  let w0 := snd DemoPump.rotated in
  let w := snd (snd (os_ReadDir (closedDir f) (f, w0))) in
  let e := "01J.ndjson" in
  let c := default EmptyString (files w !! Join (closedDir f) e) in
  (os_ReadDir (closedDir f) (f, w0) = (Ret (inr ([] ++ e :: [])), (f, w)) /\
   files w !! Join (closedDir f) e = Some c /\ c <> EmptyString) /\
  Join (UploadDirectory f) e = filepath_Join [UploadDirectory f; e] /\
  fst (pushEntry (closedDir f) e (f, w)) = Ret tt /\
  s3 (snd (snd (pushEntry (closedDir f) e (f, w)))) = s3 w ++ [object_for f e c] /\
  sqs (snd (snd (pushEntry (closedDir f) e (f, w)))) = sqs w ++ [message_for f e].
Proof.
  intros f w0 w e c.
  assert (H1 : os_ReadDir (closedDir f) (f, w0) = (Ret (inr ([] ++ e :: [])), (f, w)))
    by (vm_compute; reflexivity).
  assert (H2 : files w !! Join (closedDir f) e = Some c) by (vm_compute; reflexivity).
  assert (H3 : c <> EmptyString) by (vm_compute; discriminate).
  split; [auto|].
  destruct (pushScan_uploads_nonempty f w0 w w [] e [] c)
    as ((_ & _ & Hkey) & _ & Hok & _);
    try assumption; try reflexivity; try (vm_compute; reflexivity).
  destruct Hok as (Ha & Hb & Hc & _); [vm_compute; reflexivity|].
  auto.
Defined.

(** C3 as stated fails: on a disk where removals fail, the closed segment is
    uploaded and announced, both with success, and yet it is still there
    after the scan, which has returned. *)
Lemma uploaded_but_not_deleted :
  let st := (fst DemoPump.rotated, set_faults DemoPump.remove_fails (snd DemoPump.rotated)) in
  let p := "data/closed/01J.ndjson" in
  ~ (files (snd (snd (pushScan st))) !! p = None <->
     In (EvSys (SysPutObject "bucket" "upload/01J.ndjson") true) (events pushScan st) /\
     In (EvSys (SysSendMessage "queue") true) (events pushScan st)).
Proof.
  vm_compute. intros [_ H].
  assert (Hfalse : forall (x : string), Some x = None -> False) by (intros; discriminate).
  eapply Hfalse. apply H. split; tauto.
Qed.

(** C9, amended. In a scan of the pump whose listing succeeded, take an
    entry [e] that the scan reaches, that is empty, and whose [Info]
    succeeds.  The scan calls [os.Remove] on it and nothing else: nothing is
    put to S3 and no message is sent.  The file is gone when the removal
    succeeds; a failed removal is logged and leaves the file in place.  The
    data directory is a clean path and [e] a simple name, so that the paths
    are what [filepath.Join] makes of them. *)
Theorem pushScan_removes_empty f w0 w1 w l1 e l2 :
  let d := closedDir f in
  let p := Join d e in
  clean_dir (DataDirectory f) = true -> simple_name e = true ->
  os_ReadDir d (f, w0) = (Ret (inr (l1 ++ e :: l2)), (f, w1)) ->
  forEach l1 (pushEntry d) (f, w1) = (Ret tt, (f, w)) ->
  files w !! p = Some EmptyString ->
  faults w (clock w) (SysInfo p) = false ->
  let remove_ok := negb (faults w (1 + clock w) (SysRemove p)) in
  let r := pushEntry d e (f, w) in
  (d = filepath_Join [DataDirectory f; "closed"] /\ p = filepath_Join [d; e]) /\
  pushScan (f, w0) = (pushEntry d e ;; forEach l2 (pushEntry d) ;; emit EvSleep) (f, w) /\
  fst r = Ret tt /\
  s3 (snd (snd r)) = s3 w /\
  sqs (snd (snd r)) = sqs w /\
  events (pushEntry d e) (f, w)
    = [EvSys (SysInfo p) true; EvSys (SysRemove p) remove_ok]
      ++ (if remove_ok then []
          else [EvLog LvlError (Some (SysRemove p)) ("Unable to remove file " +:+ p)]) /\
  files (snd (snd r)) = (if remove_ok then delete p (files w) else files w).
Proof.
  intros d p Hdata He Hrd Hl1 Hf Hi remove_ok r.
  split.
  { destruct (closedDir_faithful f Hdata) as [Hd Hcd]. subst d p.
    split; [exact Hd|]. symmetry; apply filepath_Join_clean; assumption. }
  split; [exact (pushScan_reaches f w0 w1 w l1 e l2 Hrd Hl1)|].
  subst r. unfold events. subst d p remove_ok.
  rewrite (pushEntry_empty_run f w e Hf Hi). simpl.
  destruct (faults w (S (clock w)) _); simpl;
    repeat (rewrite <- app_assoc; simpl); rewrite drop_app_length;
    repeat split; reflexivity.
Qed.

Lemma pushScan_removes_empty_witness :
  let f := fst DemoPump.closed_empty in
  let w0 := snd DemoPump.closed_empty in
  let w := snd (snd (os_ReadDir (closedDir f) (f, w0))) in
  let e := "01J.ndjson" in
  (os_ReadDir (closedDir f) (f, w0) = (Ret (inr ([] ++ e :: [])), (f, w)) /\
   files w !! Join (closedDir f) e = Some EmptyString) /\
  fst (pushEntry (closedDir f) e (f, w)) = Ret tt /\
  s3 (snd (snd (pushEntry (closedDir f) e (f, w)))) = s3 w /\
  sqs (snd (snd (pushEntry (closedDir f) e (f, w)))) = sqs w.
Proof.
  intros f w0 w e.
  assert (H1 : os_ReadDir (closedDir f) (f, w0) = (Ret (inr ([] ++ e :: [])), (f, w)))
    by (vm_compute; reflexivity).
  assert (H2 : files w !! Join (closedDir f) e = Some EmptyString)
    by (vm_compute; reflexivity).
  split; [auto|].
  destruct (pushScan_removes_empty f w0 w w [] e [])
    as (_ & _ & Ha & Hb & Hc & _);
    try assumption; try reflexivity; try (vm_compute; reflexivity).
  auto.
Defined.

(** C9 as stated fails: on a disk where removals fail, the empty closed
    segment is still there after the scan. *)
Lemma empty_segment_not_deleted :
  let st := (fst DemoPump.closed_empty,
             set_faults DemoPump.remove_fails (snd DemoPump.closed_empty)) in
  let p := "data/closed/01J.ndjson" in
  files (snd st) !! p = Some EmptyString /\
  fst (pushScan st) = Ret tt /\
  files (snd (snd (pushScan st))) !! p <> None.
Proof. vm_compute. repeat split; discriminate. Qed.

(** ** The text of a record and of its line *)


















(** *** Cutting a list at its separators *)



(** *** White space *)







Lemma tight_space t : tight t -> Gjson.trim (" " +:+ t) = t.
Proof. intros H. exact H. Qed.

Lemma render_nonempty v : wf v = true -> Gjson.nonempty (render v) = true.
Proof.
  destruct v as [raw|raw|items|members]; intros H; try reflexivity.
  simpl in H. apply andb_true_iff in H. tauto.
Qed.

(** *** Elements and members *)


Lemma pieces_end sep : Gjson.pieces sep (out 0) EmptyString = [EmptyString].
Proof. reflexivity. Qed.





(** *** The metadata Write composes *)






(** *** Joining *)









(** *** [@ugly] *)











(** *** The line of a record *)















(** ** The line Write composes *)

#[local] Opaque Gjson.Get_join_ugly metaData.




#[local] Transparent Gjson.Get_join_ugly metaData.





